(** * email-api: a shallow embedding of the request dispatch pipeline

    The development follows the TypeScript sources module by module:
    - [JS]     : the fragment of the JavaScript runtime the sources rely on
                 (strings, parsed JSON values, truthiness, [typeof]);
    - [Config] : config.ts ([loadConfig], [getOriginConfig], [isAllowedOrigin]);
    - [Mailer] : mailer.ts ([escapeHtml], [sendContactEmail]);
    - [Index]  : index.ts ([isRateLimited], [validateBody], [corsHeaders],
                 [json], the [fetch] handler).

    Conventions.  A JavaScript string is a sequence of UTF-16 code units; it is
    modelled by [string], one [ascii] per code unit (code units below 256).
    [Date.now()] and the request counters are integers far below 2^53, where
    double arithmetic is exact, so they are modelled in [Z].  A value that may
    be [undefined] is an [option]. *)

From Stdlib Require Import ZArith Ascii String SpecFloat.
From stdpp Require Import base option list strings gmap.

Local Open Scope Z_scope.
Set Warnings "-register-all".

(** stdpp keeps [simpl] from unfolding string concatenation; the proofs below
    compute with it. *)
Local Arguments String.append !_ _ / : simpl nomatch.

(* ===================================================================== *)
(** * The JavaScript fragment                                            *)
(* ===================================================================== *)

Module JS.

(** The double quote, code unit 34. *)
Definition dquote : ascii := "034"%char.
(** The line feed written [\n] in the sources. *)
Definition LF : ascii := "010"%char.

(** ** Strings *)

(** [s.replace(/c/g, r)] for a one-character pattern [c] and a replacement
    [r] holding no [$] pattern. *)
Fixpoint replaceAll (c : ascii) (r : string) (s : string) : string :=
  match s with
  | EmptyString => EmptyString
  | String a s' =>
      if Ascii.eqb a c then r +:+ replaceAll c r s'
      else String a (replaceAll c r s')
  end.

(** [s.includes(sub)]. *)
Fixpoint includes (sub s : string) : bool :=
  String.prefix sub s ||
  match s with
  | EmptyString => false
  | String _ s' => includes sub s'
  end.

(** ECMAScript WhiteSpace and LineTerminator code units below 256:
    TAB, LF, VT, FF, CR, SP and NBSP. *)
Definition isWhiteSpace (a : ascii) : bool :=
  let n := nat_of_ascii a in
  ((9 <=? n)%nat && (n <=? 13)%nat) || (n =? 32)%nat || (n =? 160)%nat.

Fixpoint trimStart (s : string) : string :=
  match s with
  | EmptyString => EmptyString
  | String a s' => if isWhiteSpace a then trimStart s' else s
  end.

Fixpoint trimEnd (s : string) : string :=
  match s with
  | EmptyString => EmptyString
  | String a s' =>
      match trimEnd s' with
      | EmptyString => if isWhiteSpace a then EmptyString else String a EmptyString
      | t => String a t
      end
  end.

(** [s.trim()]. *)
Definition trim (s : string) : string := trimEnd (trimStart s).

(** [s.split(sep)[0]] for a one-character separator: the part of [s] before
    the first [sep] (all of [s] when there is none). *)
Fixpoint splitFirst (sep : ascii) (s : string) : string :=
  match s with
  | EmptyString => EmptyString
  | String a s' => if Ascii.eqb a sep then EmptyString else String a (splitFirst sep s')
  end.

(** ** Values *)

(** A JavaScript number is an IEEE 754 binary64. *)
Definition number : Type := spec_float.

(** The double nearest to an integer literal. *)
Definition num (z : Z) : number := binary_normalize 53 1024 z 0 false.

(** The values [JSON.parse] and [Request.json] produce.  An object is the
    list of its own properties in [Object.entries] order. *)
Inductive value : Type :=
| VNull
| VBool (b : bool)
| VNum (x : number)
| VStr (s : string)
| VArr (items : list value)
| VObj (props : list (string * value)).

(** [x ? .. : ..], [!x], [x && ..], [x || ..] on a possibly undefined value:
    [undefined], [null], [false], [+0], [-0], [NaN] and the empty string are falsy. *)
Definition truthy (x : option value) : bool :=
  match x with
  | None | Some VNull => false
  | Some (VBool b) => b
  | Some (VNum (S754_zero _)) | Some (VNum S754_nan) => false
  | Some (VNum _) => true
  | Some (VStr s) => negb (String.eqb s EmptyString)
  | Some (VArr _) | Some (VObj _) => true
  end.

(** [typeof x]. *)
Definition typeof (x : option value) : string :=
  match x with
  | None => "undefined"
  | Some VNull | Some (VArr _) | Some (VObj _) => "object"
  | Some (VBool _) => "boolean"
  | Some (VNum _) => "number"
  | Some (VStr _) => "string"
  end.

Fixpoint assoc (k : string) (props : list (string * value)) : option value :=
  match props with
  | [] => None
  | (k', v) :: rest => if String.eqb k' k then Some v else assoc k rest
  end.

(** [x.k] for a receiver that is neither [null] nor [undefined] and a property
    name [k] that is neither an index, [length], nor a member of a built-in
    prototype (all keys read by the sources qualify): an own property of an
    object, [undefined] on anything else. *)
Definition getProp (x : value) (k : string) : option value :=
  match x with
  | VObj props => assoc k props
  | _ => None
  end.

(** [Array.isArray(x)]. *)
Definition isArray (x : value) : bool :=
  match x with VArr _ => true | _ => false end.

(** [x ?? d]. *)
Definition nullish (x : option value) (d : value) : value :=
  match x with
  | None | Some VNull => d
  | Some v => v
  end.

End JS.

(* ===================================================================== *)
(** * config.ts                                                           *)
(* ===================================================================== *)

Module Config.
Import JS.

(** The interfaces [SmtpConfig], [OriginConfig] and [AppConfig] as declared.
    ([port] of [AppConfig] is [listenPort] here: Rocq has one name space for
    the projections of a module.) *)
Record SmtpConfig : Type := {
  host : string;
  port : number;
  secure : bool;
  user : string;
  pass : string
}.

Record OriginConfig : Type := {
  name : string;
  toEmail : string;
  smtp : SmtpConfig
}.

Record AppConfig : Type := {
  listenPort : number;
  origins : gmap string OriginConfig
}.

(** [!origin] for [origin : string | null]. *)
Definition noOrigin (origin : option string) : bool :=
  negb (truthy (VStr <$> origin)).

Definition getOriginConfig (config : AppConfig) (origin : option string)
  : option OriginConfig :=
  if noOrigin origin then None
  else origin ≫= λ o, origins config !! o.

Definition isAllowedOrigin (config : AppConfig) (origin : option string) : bool :=
  if noOrigin origin then false
  else match origin with
       | Some o => bool_decide (is_Some (origins config !! o))
       | None => false
       end.

(** ** Loading *)

(** The [as ConfigFileJson] of [loadConfig] is an unchecked cast: what the
    loader stores are the JavaScript values found in the file, whatever their
    type.  [StoredSmtp] and [StoredOrigin] are the object literal of
    [origins.set] with its fields as the runtime has them. *)
Record StoredSmtp : Type := {
  s_host : option value;
  s_port : value;
  s_secure : value;
  s_user : option value;
  s_pass : option value
}.

Record StoredOrigin : Type := {
  s_name : option value;
  s_toEmail : option value;
  s_smtp : StoredSmtp
}.

Record LoadedConfig : Type := {
  l_port : number;
  l_origins : gmap string StoredOrigin
}.

(** A stored origin has the shape [OriginConfig] declares when every field has
    its declared type; [conforms] then gives the typed record. *)
Definition conforms (c : StoredOrigin) : option OriginConfig :=
  match s_name c, s_toEmail c, s_host (s_smtp c), s_port (s_smtp c),
        s_secure (s_smtp c), s_user (s_smtp c), s_pass (s_smtp c) with
  | Some (VStr n), Some (VStr t), Some (VStr h), VNum p, VBool b,
    Some (VStr u), Some (VStr w) =>
      Some {| name := n; toEmail := t;
              smtp := {| host := h; port := p; secure := b; user := u; pass := w |} |}
  | _, _, _, _, _, _, _ => None
  end.

(** The [throw] sites of [loadConfig], and the [TypeError] of a property read
    on [null]. *)
Inductive error : Type :=
| MissingEnv
| ReadFailed (configPath : string)
| InvalidJson (configPath : string)
| NotAnObject
| InvalidToEmail (origin : string)
| InvalidSmtp (origin : string)
| MissingSmtpFields (origin : string)
| NoOrigins
| TypeError.

Inductive result (A : Type) : Type :=
| Ok (a : A)
| Throw (e : error).
Arguments Ok {A} a.
Arguments Throw {A} e.

Definition bind {A B : Type} (r : result A) (k : A → result B) : result B :=
  match r with
  | Ok a => k a
  | Throw e => Throw e
  end.

Notation "x ←! r ; k" := (bind r (λ x, k))
  (at level 20, r at level 100, k at level 200, right associativity,
   format "x  ←!  r ;  '/' k").

(** [x.k] where [x] may be [null] or [undefined]. *)
Definition get (x : option value) (k : string) : result (option value) :=
  match x with
  | None | Some VNull => Throw TypeError
  | Some v => Ok (getProp v k)
  end.

(** [Object.entries(x)] of a parsed JSON value that is an object. *)
Definition entries (x : value) : list (string * value) :=
  match x with
  | VObj props => props
  | _ => []
  end.

(** The body of the [for] loop, up to the object handed to [origins.set]. *)
Definition loadOrigin (origin : string) (originConfig : value) : result StoredOrigin :=
  toEmail ←! get (Some originConfig) "toEmail";
  if negb (truthy toEmail) || negb (String.eqb (typeof toEmail) "string")
  then Throw (InvalidToEmail origin)
  else
    smtp ←! get (Some originConfig) "smtp";
    if negb (truthy smtp) || negb (String.eqb (typeof smtp) "object")
    then Throw (InvalidSmtp origin)
    else
      host ←! get smtp "host";
      user ←! get smtp "user";
      pass ←! get smtp "pass";
      if negb (truthy host) || negb (truthy user) || negb (truthy pass)
      then Throw (MissingSmtpFields origin)
      else
        name ←! get (Some originConfig) "name";
        port ←! get smtp "port";
        secure ←! get smtp "secure";
        Ok {| s_name := name;
              s_toEmail := toEmail;
              s_smtp := {| s_host := host;
                           s_port := nullish port (VNum (num 587));
                           s_secure := nullish secure (VBool false);
                           s_user := user;
                           s_pass := pass |} |}.

(** The [for] loop over [Object.entries(configJson)], filling [origins]. *)
Fixpoint loadOrigins (es : list (string * value)) (origins : gmap string StoredOrigin)
  : result (gmap string StoredOrigin) :=
  match es with
  | [] => Ok origins
  | (origin, originConfig) :: rest =>
      c ←! loadOrigin origin originConfig;
      loadOrigins rest (<[origin := c]> origins)
  end.

Section LoadConfig.

(** The process environment and the runtime functions [loadConfig] calls;
    [None] is a thrown exception for [readFileSync] and [JSON.parse], an unset
    variable for [process.env]. *)
Variable env : string → option string.
Variable readFileSync : string → option string.
Variable JSON_parse : string → option value.
Variable Number : option string → number.

Definition loadConfig : result LoadedConfig :=
  let configPath := env "CONFIG_FILE" in
  match configPath with
  | None => Throw MissingEnv
  | Some configPath =>
    if String.eqb configPath "" then Throw MissingEnv
    else
      match readFileSync configPath with
      | None => Throw (ReadFailed configPath)
      | Some fileContent =>
        match JSON_parse fileContent with
        | None => Throw (InvalidJson configPath)
        | Some json =>
          if negb (String.eqb (typeof (Some json)) "object")
             || match json with VNull => true | _ => false end
             || isArray json
          then Throw NotAnObject
          else
            origins ←! loadOrigins (entries json) ∅;
            if bool_decide (size origins = 0%nat) then Throw NoOrigins
            else
              let p := Number (env "PORT") in
              Ok {| l_port := if truthy (Some (VNum p)) then p else num 3000;
                    l_origins := origins |}
        end
      end
  end.

End LoadConfig.

End Config.

(* ===================================================================== *)
(** * mailer.ts                                                           *)
(* ===================================================================== *)

Module Mailer.
Import JS.

Record ContactFormData : Type := {
  email : string;
  name : string;
  message : string;
  phone : option string
}.

(** The options handed to [nodemailer.createTransport]. *)
Record TransportOptions : Type := {
  host : string;
  port : number;
  secure : bool;
  auth_user : string;
  auth_pass : string
}.

(** The options handed to [transporter.sendMail]. *)
Record MailOptions : Type := {
  from : string;
  to : string;
  subject : string;
  text : string;
  html : string
}.

Definition escapeHtml (str : string) : string :=
  replaceAll dquote "&quot;"
    (replaceAll ">" "&gt;"
       (replaceAll "<" "&lt;"
          (replaceAll "&" "&amp;" str))).

(** [phone ? yes(phone) : no] for [phone : string | undefined]. *)
Definition ifPhone (phone : option string) (yes : string → string) (no : string) : string :=
  match phone with
  | Some p => if truthy (Some (VStr p)) then yes p else no
  | None => no
  end.

Definition transportOptions (originConfig : Config.OriginConfig) : TransportOptions :=
  let smtp := Config.smtp originConfig in
  {| host := Config.host smtp;
     port := Config.port smtp;
     secure := Config.secure smtp;
     auth_user := Config.user smtp;
     auth_pass := Config.pass smtp |}.

Definition mailOptions (data : ContactFormData) (originConfig : Config.OriginConfig)
  : MailOptions :=
  let email := email data in
  let name := name data in
  let message := message data in
  let phone := phone data in
  let toEmail := Config.toEmail originConfig in
  let smtp := Config.smtp originConfig in
  let originName := Config.name originConfig in
  {| from := String dquote name +:+ String dquote " <" +:+ Config.user smtp +:+ ">";
     to := toEmail;
     subject := "[Contact|Kontakt] - " +:+ originName +:+ " - " +:+ name;
     text := "From: " +:+ name +:+ " <" +:+ email +:+ "> "
             +:+ ifPhone phone (λ phone, "<" +:+ phone +:+ ">") ""
             +:+ String LF (String LF message);
     html := trim
       (String LF "      <p><strong>From:</strong> " +:+ escapeHtml name
        +:+ " &lt;" +:+ escapeHtml email +:+ " "
        +:+ ifPhone phone (λ phone, "&lt;" +:+ escapeHtml phone) ""
        +:+ "&gt;</p>"
        +:+ String LF "      <hr>"
        +:+ String LF "      <p>" +:+ replaceAll LF "<br>" (escapeHtml message) +:+ "</p>"
        +:+ String LF "    ") |}.

(** [sendContactEmail] builds a transport for the origin and awaits
    [sendMail]; [smtp] is the outcome of that delivery in the outside world
    ([true]: the promise resolves, [false]: it rejects). *)
Definition sendContactEmail (smtp : TransportOptions → MailOptions → bool)
    (data : ContactFormData) (originConfig : Config.OriginConfig) : bool :=
  let transporter := transportOptions originConfig in
  smtp transporter (mailOptions data originConfig).

End Mailer.

(* ===================================================================== *)
(** * index.ts                                                            *)
(* ===================================================================== *)

Module Index.
Import JS.

Record RateLimitEntry : Type := {
  count : Z;
  resetAt : Z
}.

Definition RATE_LIMIT : Z := 5.
Definition RATE_WINDOW_MS : Z := 60000.

(** [isRateLimited(ip)] at time [now = Date.now()], on the module-level
    [rateLimitMap]: the answer and the map afterwards.  [entry.count++]
    updates the entry the map holds. *)
Definition isRateLimited (ip : string) (now : Z)
    (rateLimitMap : gmap string RateLimitEntry) : bool * gmap string RateLimitEntry :=
  let fresh :=
    (false, <[ip := {| count := 1; resetAt := now + RATE_WINDOW_MS |}]> rateLimitMap) in
  match rateLimitMap !! ip with
  | None => fresh
  | Some entry =>
      if now >? resetAt entry then fresh
      else
        let entry := {| count := count entry + 1; resetAt := resetAt entry |} in
        (count entry >? RATE_LIMIT, <[ip := entry]> rateLimitMap)
  end.

(** The string a value is once [typeof x === "string"] has narrowed it. *)
Definition asString (x : option value) : string :=
  match x with
  | Some (VStr s) => s
  | _ => EmptyString
  end.

Definition validateBody (body : value) : bool :=
  if negb (String.eqb (typeof (Some body)) "object")
     || match body with VNull => true | _ => false end
  then false
  else
    let b := getProp body in
    String.eqb (typeof (b "email")) "string" &&
    String.eqb (typeof (b "name")) "string" &&
    String.eqb (typeof (b "message")) "string" &&
    ((truthy (b "phone") && String.eqb (typeof (b "phone")) "string"
        && (0 <? String.length (asString (b "phone")))%nat)
     || negb (truthy (b "phone"))) &&
    includes "@" (asString (b "email")) &&
    (0 <? String.length (asString (b "name")))%nat &&
    (0 <? String.length (asString (b "message")))%nat.

(** [body is ContactFormData]: the view of a body the guard has accepted.  A
    falsy [phone] that is no string ([null], [false], [0]) reads as an absent
    one, which is all the mailer can tell of it. *)
Definition asContactFormData (body : value) : Mailer.ContactFormData :=
  {| Mailer.email := asString (getProp body "email");
     Mailer.name := asString (getProp body "name");
     Mailer.message := asString (getProp body "message");
     Mailer.phone := match getProp body "phone" with
                     | Some (VStr p) => Some p
                     | _ => None
                     end |}.

Definition corsHeaders (config : Config.AppConfig) (origin : option string)
  : gmap string string :=
  let allowedOrigin :=
    match origin with
    | Some o =>
        if truthy (Some (VStr o)) && Config.isAllowedOrigin config origin then o else ""
    | None => ""
    end in
  <["Access-Control-Allow-Origin" := allowedOrigin]>
    (<["Access-Control-Allow-Methods" := "POST, OPTIONS"]>
       (<["Access-Control-Allow-Headers" := "Content-Type"]> ∅)).

(** A [Response]: its status, its headers, and its body, [None] for the
    [null] body and [Some data] for the text [JSON.stringify(data)]. *)
Record Response : Type := {
  status : Z;
  headers : gmap string string;
  body : option value
}.

(** [json(data, status, headers)]; in the spread, a key of [headers] wins. *)
Definition json (data : value) (status : Z) (headers : gmap string string) : Response :=
  {| status := status;
     headers := headers ∪ {["Content-Type" := "application/json"]};
     body := Some data |}.

Inductive level : Type := info | warn | error.

(** What a request does besides answering: the lines it logs (level and
    message; the timestamp and the metadata are left out) and its calls of
    [sendContactEmail]. *)
Inductive event : Type :=
| Log (l : level) (message : string)
| SendContactEmail (data : Mailer.ContactFormData) (originConfig : Config.OriginConfig).

(** What the handler reads of a request. *)
Record Request : Type := {
  method : string;
  pathname : string;              (* new URL(req.url).pathname *)
  Origin : option string;         (* req.headers.get("Origin") *)
  XForwardedFor : option string;  (* req.headers.get("X-Forwarded-For") *)
  requestIP : option string;      (* server.requestIP(req)?.address *)
  reqJson : option value          (* await req.json(); None when it throws *)
}.

(** The outside world during one request. *)
Record World : Type := {
  now : Z;                                                  (* Date.now() *)
  smtp : Mailer.TransportOptions → Mailer.MailOptions → bool  (* delivery *)
}.

Record Outcome : Type := {
  response : Response;
  rateLimitMap : gmap string RateLimitEntry;
  events : list event
}.

Definition clientKey (req : Request) : string :=
  match XForwardedFor req with
  | Some xff => trim (splitFirst "," xff)
  | None =>
      match requestIP req with
      | Some address => address
      | None => "unknown"
      end
  end.

Definition errorBody (msg : string) : value := VObj [("error", VStr msg)].

(** The [fetch] handler.  It reads and writes [rateLimitMap] only in its first
    synchronous stretch, before it awaits the body or the mailer, and the
    runtime is single-threaded: handling the requests one map after the other
    is what the interleaved handlers do to the map. *)
Definition fetch (config : Config.AppConfig) (w : World) (req : Request)
    (rateLimitMap : gmap string RateLimitEntry) : Outcome :=
  let origin := Origin req in
  let cors := corsHeaders config origin in
  if String.eqb (method req) "OPTIONS" then
    {| response := {| status := 204; headers := cors; body := None |};
       rateLimitMap := rateLimitMap; events := [] |}
  else
    let ip := clientKey req in
    if negb (String.eqb (pathname req) "/api/send") || negb (String.eqb (method req) "POST")
    then
      {| response := json (errorBody "Not found") 404 cors;
         rateLimitMap := rateLimitMap; events := [Log warn "Not found"] |}
    else
      match Config.getOriginConfig config origin with
      | None =>
          {| response := json (errorBody "Forbidden") 403 cors;
             rateLimitMap := rateLimitMap; events := [Log warn "Forbidden origin"] |}
      | Some originConfig =>
          let (limited, rateLimitMap) := isRateLimited ip (now w) rateLimitMap in
          if limited then
            {| response := json (errorBody "Too many requests") 429 cors;
               rateLimitMap := rateLimitMap; events := [Log warn "Rate limited"] |}
          else
            match reqJson req with
            | None =>
                {| response := json (errorBody "Invalid JSON") 400 cors;
                   rateLimitMap := rateLimitMap; events := [Log warn "Invalid JSON"] |}
            | Some body =>
                if negb (validateBody body) then
                  {| response :=
                       json (errorBody "Invalid body. Required: email, name, message") 400 cors;
                     rateLimitMap := rateLimitMap; events := [Log warn "Invalid body"] |}
                else
                  let data := asContactFormData body in
                  if Mailer.sendContactEmail (smtp w) data originConfig then
                    {| response := json (VObj [("success", VBool true)]) 200 cors;
                       rateLimitMap := rateLimitMap;
                       events := [SendContactEmail data originConfig; Log info "Email sent"] |}
                  else
                    {| response := json (errorBody "Failed to send email") 500 cors;
                       rateLimitMap := rateLimitMap;
                       events := [SendContactEmail data originConfig;
                                  Log error "Failed to send email"] |}
            end
      end.

End Index.

(* ===================================================================== *)
(** * Runs of the rate limiter                                            *)
(* ===================================================================== *)

Module Run.
Import Index.

(** The handler's rate-limit checks are served one after the other on the
    shared map; a call is the client key and the clock reading of the check. *)
Definition call : Type := string * Z.

(** The map after serving [calls] in order. *)
Fixpoint final (calls : list call) (m : gmap string RateLimitEntry)
  : gmap string RateLimitEntry :=
  match calls with
  | [] => m
  | (ip, now) :: rest => final rest (isRateLimited ip now m).2
  end.

(** The answers of [isRateLimited] to the calls of client [ip] among [calls],
    in order. *)
Fixpoint answers (ip : string) (calls : list call) (m : gmap string RateLimitEntry)
  : list bool :=
  match calls with
  | [] => []
  | (ip', now) :: rest =>
      let (r, m') := isRateLimited ip' now m in
      if decide (ip' = ip) then r :: answers ip rest m' else answers ip rest m'
  end.

(** The clock readings of the calls of client [ip]. *)
Fixpoint timesOf (ip : string) (calls : list call) : list Z :=
  match calls with
  | [] => []
  | (ip', now) :: rest =>
      if decide (ip' = ip) then now :: timesOf ip rest else timesOf ip rest
  end.

(** The answer to the call that brings the stored count to [n]. *)
Definition limitedAt (n : Z) : bool := n >? RATE_LIMIT.

End Run.

(* ===================================================================== *)
(** * Vocabulary of the statements                                        *)
(* ===================================================================== *)

Module Text.
Import JS.

(** [a] is one of the code units of [s]. *)
Fixpoint occurs (a : ascii) (s : string) : bool :=
  match s with
  | EmptyString => false
  | String b s' => Ascii.eqb b a || occurs a s'
  end.

(** [s] holds none of the four characters [escapeHtml] rewrites. *)
Definition plain (s : string) : bool :=
  negb (occurs "&" s) && negb (occurs "<" s) && negb (occurs ">" s)
  && negb (occurs dquote s).

End Text.

Module Trace.
Import Index.

(** The calls of [sendContactEmail] among the events of a request, in order. *)
Fixpoint mailerCalls (evs : list event)
  : list (Mailer.ContactFormData * Config.OriginConfig) :=
  match evs with
  | [] => []
  | SendContactEmail data originConfig :: rest => (data, originConfig) :: mailerCalls rest
  | Log _ _ :: rest => mailerCalls rest
  end.

(** Requests served one after the other on the shared map, each in its own
    world: the status of each answer and the number of its mailer calls. *)
Fixpoint serve (config : Config.AppConfig) (reqs : list (World * Request))
    (m : gmap string RateLimitEntry) : list (Z * nat) :=
  match reqs with
  | [] => []
  | (w, req) :: rest =>
      let out := fetch config w req m in
      (status (response out), length (mailerCalls (events out)))
        :: serve config rest (rateLimitMap out)
  end.

End Trace.

Module Escape.
Import JS.

(** What [escapeHtml] makes of one code unit. *)
Definition escapeChar (a : ascii) : string :=
  if Ascii.eqb a "&" then "&amp;"
  else if Ascii.eqb a "<" then "&lt;"
  else if Ascii.eqb a ">" then "&gt;"
  else if Ascii.eqb a dquote then "&quot;"
  else String a EmptyString.

(** Escaping in one pass from left to right. *)
Fixpoint escapeOnce (s : string) : string :=
  match s with
  | EmptyString => EmptyString
  | String a s' => escapeChar a +:+ escapeOnce s'
  end.

(** [a] is one of the four characters [escapeHtml] rewrites. *)
Definition special (a : ascii) : bool :=
  Ascii.eqb a "&" || Ascii.eqb a "<" || Ascii.eqb a ">" || Ascii.eqb a dquote.

(** How often [a] stands in [s]. *)
Fixpoint countc (a : ascii) (s : string) : nat :=
  match s with
  | EmptyString => 0%nat
  | String b s' => ((if Ascii.eqb b a then 1 else 0) + countc a s')%nat
  end.

End Escape.

Module Logs.
Import Index.

(** The lines a request logs, in order. *)
Fixpoint logged (evs : list event) : list (level * string) :=
  match evs with
  | [] => []
  | Log l message :: rest => (l, message) :: logged rest
  | SendContactEmail _ _ :: rest => logged rest
  end.

End Logs.

(* ===================================================================== *)
(** * The single-site version: environment configuration and API key     *)
(* ===================================================================== *)

(** The sources also hold the version of the service that serves one site:
    its configuration comes from environment variables (unnamed/part_000),
    its handler asks for an API key (unnamed/part_002) and its mailer sets a
    reply-to address (the last mailer in src/config.ts). *)
Module Legacy.
Import JS.

(** ** config.ts *)

(** A value, or the error thrown for a missing required variable. *)
Inductive thrown (A : Type) : Type :=
| Returned (a : A)
| MissingVariable (key : string).
Arguments Returned {A} a.
Arguments MissingVariable {A} key.

Definition getEnv (env : string → option string) (key : string) (required : bool)
  : thrown (option string) :=
  let value := env key in
  if required && negb (truthy (VStr <$> value)) then MissingVariable key
  else Returned value.

(** [getEnv(key, true)], whose value is a string when it returns. *)
Definition getRequired (env : string → option string) (key : string) : thrown string :=
  match getEnv env key true with
  | Returned (Some value) => Returned value
  | Returned None | MissingVariable _ => MissingVariable key
  end.

(** [s.split(sep)] for a one-character separator. *)
Fixpoint split (sep : ascii) (s : string) : list string :=
  match s with
  | EmptyString => [EmptyString]
  | String a s' =>
      if Ascii.eqb a sep then EmptyString :: split sep s'
      else match split sep s' with
           | [] => [String a EmptyString]
           | first :: others => String a first :: others
           end
  end.

Record SmtpConfig : Type := {
  host : string;
  port : number;
  secure : bool;
  user : string;
  pass : string
}.

Record Config : Type := {
  listenPort : number;
  apiKey : string;
  allowedOrigins : list string;
  toEmail : string;
  smtp : SmtpConfig
}.

Definition andThen {A B : Type} (r : thrown A) (k : A → thrown B) : thrown B :=
  match r with
  | Returned a => k a
  | MissingVariable key => MissingVariable key
  end.

Notation "x ←? r ; k" := (andThen r (λ x, k))
  (at level 20, r at level 100, k at level 200, right associativity,
   format "x  ←?  r ;  '/' k").

(** [x || d] on numbers. *)
Definition orElse (x d : number) : number :=
  if truthy (Some (VNum x)) then x else d.

(** The object literal [config], its fields evaluated in order; [Number] is
    the conversion of the runtime. *)
Definition config (env : string → option string) (Number : option string → number)
  : thrown Config :=
  port ←? getEnv env "PORT" false;
  apiKey ←? getRequired env "API_KEY";
  allowedOrigins ←? getRequired env "ALLOWED_ORIGINS";
  toEmail ←? getRequired env "TO_EMAIL";
  host ←? getRequired env "SMTP_HOST";
  smtpPort ←? getEnv env "SMTP_PORT" false;
  secure ←? getEnv env "SMTP_SECURE" false;
  user ←? getRequired env "SMTP_USER";
  pass ←? getRequired env "SMTP_PASS";
  Returned
    {| listenPort := orElse (Number port) (num 3000);
       apiKey := apiKey;
       allowedOrigins := trim <$> split "," allowedOrigins;
       toEmail := toEmail;
       smtp := {| host := host;
                  port := orElse (Number smtpPort) (num 587);
                  secure := bool_decide (secure = Some "true");
                  user := user;
                  pass := pass |} |}.

(** ** mailer.ts *)

Record ContactFormData : Type := {
  email : string;
  name : string;
  subject : string;
  message : string
}.

Record MailOptions : Type := {
  m_from : string;
  m_replyTo : string;
  m_to : string;
  m_subject : string;
  m_text : string;
  m_html : string
}.

Definition mailOptions (cfg : Config) (data : ContactFormData) : MailOptions :=
  let email := email data in
  let name := name data in
  let subject := subject data in
  let message := message data in
  {| m_from := String dquote name +:+ String dquote " <" +:+ user (smtp cfg) +:+ ">";
     m_replyTo := email;
     m_to := toEmail cfg;
     m_subject := "[Contact Form] " +:+ subject;
     m_text := "From: " +:+ name +:+ " <" +:+ email +:+ ">"
               +:+ String LF (String LF message);
     m_html := trim
       (String LF "      <p><strong>From:</strong> " +:+ Mailer.escapeHtml name
        +:+ " &lt;" +:+ Mailer.escapeHtml email +:+ "&gt;</p>"
        +:+ String LF "      <hr>"
        +:+ String LF "      <p>"
        +:+ replaceAll LF "<br>" (Mailer.escapeHtml message) +:+ "</p>"
        +:+ String LF "    ") |}.

(** ** index.ts *)

Definition validateBody (body : value) : bool :=
  if negb (String.eqb (typeof (Some body)) "object")
     || match body with VNull => true | _ => false end
  then false
  else
    let b := getProp body in
    String.eqb (typeof (b "email")) "string" &&
    String.eqb (typeof (b "name")) "string" &&
    String.eqb (typeof (b "subject")) "string" &&
    String.eqb (typeof (b "message")) "string" &&
    includes "@" (Index.asString (b "email")) &&
    (0 <? String.length (Index.asString (b "name")))%nat &&
    (0 <? String.length (Index.asString (b "subject")))%nat &&
    (0 <? String.length (Index.asString (b "message")))%nat.

Definition asContactFormData (body : value) : ContactFormData :=
  {| email := Index.asString (getProp body "email");
     name := Index.asString (getProp body "name");
     subject := Index.asString (getProp body "subject");
     message := Index.asString (getProp body "message") |}.

(** [xs.includes(x)] on an array of strings. *)
Definition arrayIncludes (xs : list string) (x : string) : bool :=
  existsb (String.eqb x) xs.

Definition corsHeaders (cfg : Config) (origin : option string) : gmap string string :=
  let allowedOrigin :=
    match origin with
    | Some o =>
        if truthy (Some (VStr o)) && arrayIncludes (allowedOrigins cfg) o then o else ""
    | None => ""
    end in
  <["Access-Control-Allow-Origin" := allowedOrigin]>
    (<["Access-Control-Allow-Methods" := "POST, OPTIONS"]>
       (<["Access-Control-Allow-Headers" := "Content-Type, X-API-Key"]> ∅)).

Record Request : Type := {
  method : string;
  pathname : string;
  Origin : option string;
  XApiKey : option string;        (* req.headers.get("X-API-Key") *)
  XForwardedFor : option string;
  requestIP : option string;
  reqJson : option value
}.

Record World : Type := {
  now : Z;
  delivers : MailOptions → bool
}.

Record Outcome : Type := {
  response : Index.Response;
  rateLimitMap : gmap string Index.RateLimitEntry;
  sent : list ContactFormData
}.

Definition clientKey (req : Request) : string :=
  match XForwardedFor req with
  | Some xff => trim (splitFirst "," xff)
  | None =>
      match requestIP req with
      | Some address => address
      | None => "unknown"
      end
  end.

Definition fetch (cfg : Config) (w : World) (req : Request)
    (rateLimitMap : gmap string Index.RateLimitEntry) : Outcome :=
  let origin := Origin req in
  let cors := corsHeaders cfg origin in
  let answer (r : Index.Response) (m : gmap string Index.RateLimitEntry)
      (mails : list ContactFormData) :=
    {| response := r; rateLimitMap := m; sent := mails |} in
  if String.eqb (method req) "OPTIONS" then
    answer {| Index.status := 204; Index.headers := cors; Index.body := None |}
      rateLimitMap []
  else if negb (String.eqb (pathname req) "/api/send")
          || negb (String.eqb (method req) "POST") then
    answer (Index.json (Index.errorBody "Not found") 404 cors) rateLimitMap []
  else if negb (bool_decide (XApiKey req = Some (apiKey cfg))) then
    answer (Index.json (Index.errorBody "Unauthorized") 401 cors) rateLimitMap []
  else
    let ip := clientKey req in
    let (limited, rateLimitMap) := Index.isRateLimited ip (now w) rateLimitMap in
    if limited then
      answer (Index.json (Index.errorBody "Too many requests") 429 cors) rateLimitMap []
    else
      match reqJson req with
      | None =>
          answer (Index.json (Index.errorBody "Invalid JSON") 400 cors) rateLimitMap []
      | Some body =>
          if negb (validateBody body) then
            answer
              (Index.json
                 (Index.errorBody "Invalid body. Required: email, name, subject, message")
                 400 cors)
              rateLimitMap []
          else
            let data := asContactFormData body in
            if delivers w (mailOptions cfg data) then
              answer (Index.json (VObj [("success", VBool true)]) 200 cors)
                rateLimitMap [data]
            else
              answer (Index.json (Index.errorBody "Failed to send email") 500 cors)
                rateLimitMap [data]
      end.

End Legacy.

(* ===================================================================== *)
(** * Properties of the rate limiter                                      *)
(* ===================================================================== *)

Section RateLimiter.
Import Index Run.
Implicit Types (m : gmap string RateLimitEntry) (ip : string) (e : RateLimitEntry).

Lemma isRateLimited_fresh ip now m :
  m !! ip = None →
  isRateLimited ip now m =
    (false, <[ip := {| count := 1; resetAt := now + RATE_WINDOW_MS |}]> m).
Proof. intros H. unfold isRateLimited. by rewrite H. Qed.

Lemma isRateLimited_expired ip now m e :
  m !! ip = Some e → resetAt e < now →
  isRateLimited ip now m =
    (false, <[ip := {| count := 1; resetAt := now + RATE_WINDOW_MS |}]> m).
Proof.
  intros H Hlt. unfold isRateLimited. rewrite H.
  destruct (Z.gtb_spec now (resetAt e)); [done | lia].
Qed.

Lemma isRateLimited_live ip now m e :
  m !! ip = Some e → now ≤ resetAt e →
  isRateLimited ip now m =
    (limitedAt (count e + 1),
     <[ip := {| count := count e + 1; resetAt := resetAt e |}]> m).
Proof.
  intros H Hle. unfold isRateLimited. rewrite H.
  destruct (Z.gtb_spec now (resetAt e)); [lia | done].
Qed.

(** A check for one client leaves the entries of the others alone. *)
Lemma isRateLimited_frame ip ip' now m :
  ip' ≠ ip → (isRateLimited ip' now m).2 !! ip = m !! ip.
Proof.
  intros Hne. unfold isRateLimited.
  destruct (m !! ip') as [e|]; [destruct (now >? resetAt e) |];
    simpl; by rewrite lookup_insert_ne.
Qed.

(** Inside a live window every call of the client is counted, and answered
    by comparing the count it has just brought about with the cap. *)
Lemma live_window ip calls : ∀ m e,
  m !! ip = Some e →
  Forall (λ t, t ≤ resetAt e) (timesOf ip calls) →
  answers ip calls m
    = (λ n, limitedAt (count e + Z.of_nat n)) <$> seq 1 (length (timesOf ip calls))
  ∧ final calls m !! ip
    = Some {| count := count e + Z.of_nat (length (timesOf ip calls));
              resetAt := resetAt e |}.
Proof.
  induction calls as [|[ip' now] rest IH]; intros m e Hm Hts; simpl in *.
  - rewrite Z.add_0_r. by destruct e.
  - destruct (isRateLimited ip' now m) as [r m'] eqn:Hstep.
    destruct (decide (ip' = ip)) as [->|Hne].
    + apply Forall_cons in Hts as [Hnow Hts].
      rewrite (isRateLimited_live _ _ _ _ Hm Hnow) in Hstep.
      injection Hstep as <- <-. simpl.
      set (e' := {| count := count e + 1; resetAt := resetAt e |}).
      destruct (IH (<[ip := e']> m) e') as [Ha Hf];
        [apply lookup_insert_eq | done |].
      rewrite Ha, Hf. subst e'; simpl. split.
      * f_equal. rewrite <- (fmap_S_seq 1), <- list_fmap_compose.
        apply list_fmap_ext. intros _ n _. simpl. f_equal. lia.
      * do 2 f_equal. lia.
    + assert (m' !! ip = Some e) as Hm'.
      { replace m' with (isRateLimited ip' now m).2 by by rewrite Hstep.
        by rewrite isRateLimited_frame. }
      replace (isRateLimited ip' now m).2 with m' by by rewrite Hstep.
      by apply IH.
Qed.

(** From the first call of a client the map has never seen. *)
Lemma fresh_window ip calls : ∀ m t0 ts,
  m !! ip = None →
  timesOf ip calls = t0 :: ts →
  Forall (λ t, t ≤ t0 + RATE_WINDOW_MS) ts →
  answers ip calls m = (λ n, limitedAt (Z.of_nat n)) <$> seq 1 (S (length ts))
  ∧ final calls m !! ip
    = Some {| count := 1 + Z.of_nat (length ts); resetAt := t0 + RATE_WINDOW_MS |}.
Proof.
  induction calls as [|[ip' now] rest IH]; intros m t0 ts Hm Hcalls Hts;
    simpl in *; [done |].
  destruct (isRateLimited ip' now m) as [r m'] eqn:Hstep.
  destruct (decide (ip' = ip)) as [->|Hne].
  - injection Hcalls as -> <-.
    rewrite (isRateLimited_fresh _ _ _ Hm) in Hstep. injection Hstep as <- <-.
    simpl. set (e := {| count := 1; resetAt := t0 + RATE_WINDOW_MS |}).
    destruct (live_window ip rest (<[ip := e]> m) e) as [Ha Hf];
      [apply lookup_insert_eq | done |].
    rewrite Ha, Hf. subst e; simpl. split; [|done].
    f_equal. rewrite <- (fmap_S_seq 1), <- list_fmap_compose.
    apply list_fmap_ext. intros _ n _. simpl. f_equal. lia.
  - assert (m' !! ip = None) as Hm'.
    { replace m' with (isRateLimited ip' now m).2 by by rewrite Hstep.
      by rewrite isRateLimited_frame. }
    replace (isRateLimited ip' now m).2 with m' by by rewrite Hstep.
    by apply IH.
Qed.

End RateLimiter.

Section RateLimiterClaims.
Import Index Run.
Implicit Types (m : gmap string RateLimitEntry) (ip : string) (e : RateLimitEntry).

Lemma timesOf_replicate ip now n :
  timesOf ip (replicate n (ip, now)) = replicate n now.
Proof.
  induction n as [|n IH]; simpl; [done |].
  destruct (decide (ip = ip)); [by rewrite IH | done].
Qed.

Lemma fmap_seq_true (f : nat → bool) (n : nat) : ∀ j : nat,
  (∀ k : nat, (j ≤ k)%nat → f k = true) →
  f <$> seq j n = replicate n true.
Proof.
  induction n as [|n IH]; intros j Hf; simpl; [done |].
  rewrite Hf by lia. f_equal. apply IH. intros k Hk. apply Hf. lia.
Qed.

(** C2. For a client key the map has not seen, whose later calls all come
    strictly before the stored resetAt (other clients may call in between):
    the first call stores count = 1, resetAt = now + 60000 and is allowed; the
    call that brings the count to n is allowed iff n <= 5, and the count after
    the calls is their number, so calls 1 to 5 are allowed and call 6 is not;
    a call after resetAt stores count = 1 afresh and is allowed. *)
Theorem rate_limit_fixed_window ip m (calls : list call) (t0 : Z) (ts : list Z) (t' : Z) :
  m !! ip = None →
  timesOf ip calls = t0 :: ts →
  Forall (λ t, t < t0 + 60000) ts →
  t0 + 60000 < t' →
  isRateLimited ip t0 m = (false, <[ip := {| count := 1; resetAt := t0 + 60000 |}]> m)
  ∧ answers ip calls m = (λ n, negb (Z.of_nat n <=? 5)) <$> seq 1 (S (length ts))
  ∧ final calls m !! ip
    = Some {| count := 1 + Z.of_nat (length ts); resetAt := t0 + 60000 |}
  ∧ (length ts = 5%nat →
     answers ip calls m = [false; false; false; false; false; true])
  ∧ isRateLimited ip t' (final calls m)
    = (false, <[ip := {| count := 1; resetAt := t' + 60000 |}]> (final calls m)).
Proof.
  intros Hm Hcalls Hts Hafter.
  destruct (fresh_window ip calls m t0 ts Hm Hcalls) as [Ha Hf].
  { eapply Forall_impl; [exact Hts |]. unfold RATE_WINDOW_MS. simpl. lia. }
  assert (answers ip calls m
          = (λ n, negb (Z.of_nat n <=? 5)) <$> seq 1 (S (length ts))) as Ha'.
  { rewrite Ha. apply list_fmap_ext. intros _ n _.
    unfold limitedAt, RATE_LIMIT. rewrite Z.gtb_ltb, Z.ltb_antisym. done. }
  split; [by apply isRateLimited_fresh |].
  split; [exact Ha' |]. split; [exact Hf |]. split.
  - intros Hlen. rewrite Ha', Hlen. reflexivity.
  - eapply isRateLimited_expired; [exact Hf |]. simpl. unfold RATE_WINDOW_MS. lia.
Qed.

Lemma rate_limit_fixed_window_witness :
  let calls := [("203.0.113.7", 1000); ("198.51.100.2", 1500); ("203.0.113.7", 2000);
                ("203.0.113.7", 3000); ("203.0.113.7", 4000); ("198.51.100.2", 4500);
                ("203.0.113.7", 5000); ("203.0.113.7", 60999)] in
  answers "203.0.113.7" calls ∅ = [false; false; false; false; false; true]
  ∧ final calls ∅ !! "203.0.113.7" = Some {| count := 6; resetAt := 61000 |}
  ∧ (isRateLimited "203.0.113.7" 61001 (final calls ∅)).1 = false.
Proof.
  intros calls.
  destruct (rate_limit_fixed_window "203.0.113.7" ∅ calls 1000
              [2000; 3000; 4000; 5000; 60999] 61001)
    as (_ & _ & Hf & H6 & Hreset);
    [reflexivity | reflexivity | repeat constructor; lia | lia |].
  split; [apply H6; reflexivity |]. split; [exact Hf |].
  rewrite Hreset. reflexivity.
Defined.

(** C8, as the code has it: a check at a time up to and including resetAt
    raises the stored count by one and keeps resetAt; only a check strictly
    after resetAt starts a fresh window (count = 1, resetAt = now + 60000). *)
Theorem rate_limit_entry_evolution ip m e (now : Z) :
  m !! ip = Some e →
  (now ≤ resetAt e →
     (isRateLimited ip now m).2 !! ip
       = Some {| count := count e + 1; resetAt := resetAt e |}
     ∧ count e < count e + 1)
  ∧ (resetAt e < now →
     (isRateLimited ip now m).2 !! ip
       = Some {| count := 1; resetAt := now + 60000 |}).
Proof.
  intros Hm. split; intros Hnow.
  - rewrite (isRateLimited_live _ _ _ _ Hm Hnow). simpl.
    rewrite lookup_insert_eq. split; [done | lia].
  - rewrite (isRateLimited_expired _ _ _ _ Hm Hnow). simpl.
    by rewrite lookup_insert_eq.
Qed.

Lemma rate_limit_entry_evolution_witness :
  let m := {["203.0.113.7" := {| count := 3; resetAt := 61000 |}]} in
  (isRateLimited "203.0.113.7" 61000 m).2 !! "203.0.113.7"
    = Some {| count := 4; resetAt := 61000 |}
  ∧ (isRateLimited "203.0.113.7" 61001 m).2 !! "203.0.113.7"
    = Some {| count := 1; resetAt := 121001 |}.
Proof.
  intros m.
  destruct (rate_limit_entry_evolution "203.0.113.7" m
              {| count := 3; resetAt := 61000 |} 61000) as [Hin _];
    [reflexivity |].
  destruct (rate_limit_entry_evolution "203.0.113.7" m
              {| count := 3; resetAt := 61000 |} 61001) as [_ Hout];
    [reflexivity |].
  split; [apply Hin; simpl; lia | apply Hout; simpl; lia].
Defined.

(** C8 as stated fails at the boundary: an entry created at time 0 has
    resetAt = 60000, and the check arriving at exactly 60000 is counted in the
    old window (count 2, resetAt 60000) instead of starting a fresh one. *)
Lemma reset_at_boundary_counterexample :
  let m1 := (isRateLimited "203.0.113.7" 0 ∅).2 in
  m1 !! "203.0.113.7" = Some {| count := 1; resetAt := 60000 |}
  ∧ (isRateLimited "203.0.113.7" 60000 m1).2 !! "203.0.113.7"
    = Some {| count := 2; resetAt := 60000 |}
  ∧ (isRateLimited "203.0.113.7" 60000 m1).2 !! "203.0.113.7"
    ≠ Some {| count := 1; resetAt := 60000 + 60000 |}.
Proof. cbv zeta. split; [reflexivity |]. split; [reflexivity | discriminate]. Qed.

(** C10. While an entry is live (the clock has not passed resetAt) every
    check raises its count by one, allowed or not, and leaves resetAt alone;
    once the count has reached the cap every further call in the window is
    rejected; and the count passes any bound if calls keep coming. *)
Theorem rejected_calls_still_counted ip m e (calls : list call) :
  m !! ip = Some e →
  Forall (λ t, t ≤ resetAt e) (timesOf ip calls) →
  (∀ now, now ≤ resetAt e →
     isRateLimited ip now m
     = (count e + 1 >? 5, <[ip := {| count := count e + 1; resetAt := resetAt e |}]> m))
  ∧ final calls m !! ip
    = Some {| count := count e + Z.of_nat (length (timesOf ip calls));
              resetAt := resetAt e |}
  ∧ (5 ≤ count e →
     answers ip calls m = replicate (length (timesOf ip calls)) true)
  ∧ (∀ bound : Z, ∃ more e',
       Forall (λ t, t ≤ resetAt e) (timesOf ip more)
       ∧ final more m !! ip = Some e'
       ∧ bound < count e' ∧ resetAt e' = resetAt e).
Proof.
  intros Hm Hts.
  destruct (live_window ip calls m e Hm Hts) as [Ha Hf].
  split; [intros now Hnow; by apply isRateLimited_live |].
  split; [exact Hf |]. split.
  - intros Hcap. rewrite Ha.
    apply fmap_seq_true. intros n Hn. unfold limitedAt, RATE_LIMIT.
    destruct (Z.gtb_spec (count e + Z.of_nat n) 5); [done | lia].
  - intros bound.
    set (n := Z.to_nat (bound - count e + 1)).
    assert (Forall (λ t, t ≤ resetAt e) (timesOf ip (replicate n (ip, resetAt e))))
      as Hmore.
    { rewrite timesOf_replicate. apply Forall_replicate. lia. }
    destruct (live_window ip _ m e Hm Hmore) as [_ Hf'].
    eexists _, _. split; [exact Hmore |]. split; [exact Hf' |]. simpl.
    rewrite timesOf_replicate, length_replicate. split; [lia | done].
Qed.

Lemma rejected_calls_still_counted_witness :
  let m := {["203.0.113.7" := {| count := 5; resetAt := 61000 |}]} in
  let calls := [("203.0.113.7", 2000); ("203.0.113.7", 3000); ("203.0.113.7", 61000)] in
  answers "203.0.113.7" calls m = [true; true; true]
  ∧ final calls m !! "203.0.113.7" = Some {| count := 8; resetAt := 61000 |}.
Proof.
  intros m calls.
  destruct (rejected_calls_still_counted "203.0.113.7" m
              {| count := 5; resetAt := 61000 |} calls)
    as (_ & Hf & Hrej & _);
    [reflexivity | repeat constructor; simpl; lia |].
  split; [apply Hrej; simpl; lia | exact Hf].
Defined.

End RateLimiterClaims.

(* ===================================================================== *)
(** * Properties of the mailer                                            *)
(* ===================================================================== *)

Section Strings.
Import JS Text.

Lemma append_assoc (s t u : string) : (s +:+ t) +:+ u = s +:+ (t +:+ u).
Proof. induction s as [|a s IH]; simpl; [done | by rewrite IH]. Qed.

Lemma occurs_app a (s t : string) : occurs a (s +:+ t) = occurs a s || occurs a t.
Proof.
  induction s as [|b s IH]; simpl; [done |].
  by rewrite IH, orb_assoc.
Qed.

Lemma replaceAll_absent c r (s : string) :
  occurs c s = false → replaceAll c r s = s.
Proof.
  induction s as [|a s IH]; simpl; [done |].
  intros [Ha Hs]%orb_false_iff. rewrite Ha. by rewrite IH.
Qed.

(** The pattern is gone after the replacement, unless the replacement brings
    it back. *)
Lemma occurs_replaceAll_same c r (s : string) :
  occurs c r = false → occurs c (replaceAll c r s) = false.
Proof.
  intros Hr. induction s as [|a s IH]; simpl; [done |].
  destruct (Ascii.eqb a c) eqn:Ha.
  - by rewrite occurs_app, Hr, IH.
  - simpl. by rewrite Ha, IH.
Qed.

(** A replacement that does not hold [a] cannot introduce it. *)
Lemma occurs_replaceAll_other a c r (s : string) :
  occurs a r = false → occurs a s = false → occurs a (replaceAll c r s) = false.
Proof.
  intros Hr. induction s as [|b s IH]; simpl; [done |].
  intros [Hb Hs]%orb_false_iff.
  destruct (Ascii.eqb b c).
  - by rewrite occurs_app, Hr, IH.
  - simpl. by rewrite Hb, IH.
Qed.

Lemma includes_occurs a (s : string) :
  includes (String a EmptyString) s = occurs a s.
Proof.
  induction s as [|b s IH]; simpl; [done |].
  rewrite IH. f_equal.
  destruct (ascii_dec a b) as [->|Hne].
  - rewrite Ascii.eqb_refl. by destruct s.
  - rewrite (proj2 (Ascii.eqb_neq b a)) by congruence. done.
Qed.

Lemma prefix_app (s t : string) : String.prefix s (s +:+ t) = true.
Proof.
  induction s as [|a s IH]; simpl; [by destruct t |].
  destruct (ascii_dec a a); [done | congruence].
Qed.

Lemma includes_app_r (sub s t : string) :
  includes sub t = true → includes sub (s +:+ t) = true.
Proof.
  intros Ht. induction s as [|a s IH]; simpl; [done |].
  rewrite IH. apply orb_true_r.
Qed.

Lemma includes_infix (sub s t : string) : includes sub (s +:+ sub +:+ t) = true.
Proof.
  apply includes_app_r.
  assert (∀ u, String.prefix sub u = true → includes sub u = true) as Hpre.
  { intros u Hu. destruct u; cbn [includes]; by rewrite Hu. }
  apply Hpre, prefix_app.
Qed.

Lemma trimEnd_app (s t : string) a u :
  trimEnd t = String a u → trimEnd (s +:+ t) = s +:+ String a u.
Proof.
  intros Ht. induction s as [|b s IH]; simpl; [done |].
  rewrite IH. by destruct s.
Qed.

End Strings.

Section MailerClaims.
Import JS Text Mailer.

Lemma trimEnd_app_ne (s t : string) :
  trimEnd t ≠ EmptyString → trimEnd (s +:+ t) = s +:+ trimEnd t.
Proof.
  intros Ht. destruct (trimEnd t) as [|a u] eqn:E; [done |].
  by apply trimEnd_app.
Qed.

Lemma trimEnd_app_blank (s t : string) :
  trimEnd t ≠ EmptyString → trimEnd (s +:+ t) ≠ EmptyString.
Proof.
  intros Ht. rewrite trimEnd_app_ne by done.
  destruct s; simpl; [done | discriminate].
Qed.

(** Something other than white space ends a concatenation whose last piece
    is known. *)
Ltac nonblank :=
  first [ by (simpl; discriminate) | apply trimEnd_app_blank; nonblank ].

Lemma escapeHtml_no_markup (s : string) :
  occurs "<" (escapeHtml s) = false
  ∧ occurs ">" (escapeHtml s) = false
  ∧ occurs dquote (escapeHtml s) = false.
Proof.
  unfold escapeHtml. repeat split.
  - do 2 (apply occurs_replaceAll_other; [done |]).
    by apply occurs_replaceAll_same.
  - apply occurs_replaceAll_other; [done |]. by apply occurs_replaceAll_same.
  - by apply occurs_replaceAll_same.
Qed.

(** C6. escapeHtml leaves a string without &, <, > and the double quote as it
    is, so that escaping it twice is escaping it once; and it turns <script>
    into &lt;script&gt;. *)
Theorem escapeHtml_plain (s : string) :
  plain s = true →
  escapeHtml s = s
  ∧ escapeHtml (escapeHtml s) = escapeHtml s
  ∧ escapeHtml "<script>" = "&lt;script&gt;".
Proof.
  unfold plain. intros H.
  repeat (apply andb_prop in H as [H ?]).
  assert (escapeHtml s = s) as Hid.
  { unfold escapeHtml.
    rewrite (replaceAll_absent "&" _ s) by by apply negb_true_iff.
    rewrite (replaceAll_absent "<" _ s) by by apply negb_true_iff.
    rewrite (replaceAll_absent ">" _ s) by by apply negb_true_iff.
    by rewrite (replaceAll_absent dquote _ s) by by apply negb_true_iff. }
  split; [exact Hid |]. split; [by rewrite !Hid | reflexivity].
Qed.

Lemma escapeHtml_plain_witness :
  plain "Ada Lovelace, 12 St James's Square" = true
  ∧ escapeHtml "Ada Lovelace, 12 St James's Square"
    = "Ada Lovelace, 12 St James's Square".
Proof.
  split; [reflexivity |].
  apply (escapeHtml_plain "Ada Lovelace, 12 St James's Square"). reflexivity.
Defined.

(** C7. The message sendContactEmail hands to the transport: its from field
    shows the visitor's name on the address of the origin's SMTP user and
    depends on nothing else the visitor sent; it goes to cfg.toEmail; the
    subject holds the origin's name; there is a text and an HTML part; the
    HTML part is built from the escaped name, email, phone and message, each
    escaped on its own (no <, > or double quote survives in any of them), with
    every newline of the message turned into <br>; the text part ends with the
    message as it came. *)
Theorem mail_message_fields (data data' : ContactFormData) (cfg : Config.OriginConfig) :
  let mail := mailOptions data cfg in
  let lines := replaceAll LF "<br>" (escapeHtml (message data)) in
  from mail
    = String dquote (name data) +:+ String dquote " <"
      +:+ Config.user (Config.smtp cfg) +:+ ">"
  ∧ (name data' = name data → from (mailOptions data' cfg) = from mail)
  ∧ to mail = Config.toEmail cfg
  ∧ includes (Config.name cfg) (subject mail) = true
  ∧ text mail
    = "From: " +:+ name data +:+ " <" +:+ email data +:+ "> "
      +:+ ifPhone (phone data) (λ p, "<" +:+ p +:+ ">") ""
      +:+ String LF (String LF (message data))
  ∧ html mail
    = "<p><strong>From:</strong> " +:+ escapeHtml (name data)
      +:+ " &lt;" +:+ escapeHtml (email data) +:+ " "
      +:+ ifPhone (phone data) (λ p, "&lt;" +:+ escapeHtml p) ""
      +:+ "&gt;</p>" +:+ String LF "      <hr>"
      +:+ String LF "      <p>" +:+ lines +:+ "</p>"
  ∧ (∀ field : string,
       occurs "<" (escapeHtml field) = false
       ∧ occurs ">" (escapeHtml field) = false
       ∧ occurs dquote (escapeHtml field) = false)
  ∧ occurs LF lines = false.
Proof.
  intros mail lines. subst mail.
  split; [reflexivity |].
  split; [intros Hname; cbv beta iota zeta delta [mailOptions from]; by rewrite Hname |].
  split; [reflexivity |].
  split; [cbv beta iota zeta delta [mailOptions subject]; apply includes_infix |].
  split; [reflexivity |].
  split; [| split; [apply escapeHtml_no_markup | by apply occurs_replaceAll_same]].
  cbv beta iota zeta delta [mailOptions html trim].
  change (trimStart (String LF "      <p><strong>From:</strong> " +:+ ?rest))
    with ("<p><strong>From:</strong> " +:+ rest).
  fold lines.
  rewrite !trimEnd_app_ne by nonblank.
  reflexivity.
Qed.

Lemma mail_message_fields_witness :
  let site := {| Config.name := "Example";
                 Config.toEmail := "owner@known.example";
                 Config.smtp := {| Config.host := "smtp.known.example";
                                   Config.port := num 587;
                                   Config.secure := false;
                                   Config.user := "mailer@known.example";
                                   Config.pass := "secret" |} |} in
  let data := {| email := "ada@example.org"; name := "Ada";
                 message := String "h" (String LF "i"); phone := None |} in
  let data' := {| email := "eve@elsewhere.example"; name := "Ada";
                  message := "<b>"; phone := Some "555" |} in
  from (mailOptions data' site) = from (mailOptions data site)
  ∧ html (mailOptions data site)
    = "<p><strong>From:</strong> Ada &lt;ada@example.org &gt;</p>"
      +:+ String LF "      <hr>" +:+ String LF "      <p>h<br>i</p>".
Proof.
  intros site data data'.
  destruct (mail_message_fields data data' site) as (_ & Hfrom & _ & _ & _ & Hhtml & _).
  split; [apply Hfrom; reflexivity | rewrite Hhtml; reflexivity].
Defined.

End MailerClaims.

(* ===================================================================== *)
(** * Properties of the validator                                         *)
(* ===================================================================== *)

Section Validator.
Import JS Text Index.

Lemma typeof_string (x : option value) :
  String.eqb (typeof x) "string" = true → ∃ s, x = Some (VStr s).
Proof. destruct x as [[]|]; simpl; try discriminate. eauto. Qed.

Lemma length_pos (s : string) : (0 <? String.length s)%nat = true ↔ s ≠ EmptyString.
Proof. destruct s; simpl; split; (done || discriminate). Qed.

(** What the guard reads of a body that is an object: seven conjuncts. *)
Lemma validateBody_obj (props : list (string * value)) :
  let b := getProp (VObj props) in
  validateBody (VObj props) =
    String.eqb (typeof (b "email")) "string" &&
    String.eqb (typeof (b "name")) "string" &&
    String.eqb (typeof (b "message")) "string" &&
    ((truthy (b "phone") && String.eqb (typeof (b "phone")) "string"
        && (0 <? String.length (asString (b "phone")))%nat)
     || negb (truthy (b "phone"))) &&
    includes "@" (asString (b "email")) &&
    (0 <? String.length (asString (b "name")))%nat &&
    (0 <? String.length (asString (b "message")))%nat.
Proof. reflexivity. Qed.

Lemma validateBody_not_obj (v : value) :
  (∀ props, v ≠ VObj props) → validateBody v = false.
Proof.
  intros Hv. destruct v; try reflexivity. by destruct (Hv props).
Qed.

(** The phone conjunct: a falsy phone passes, a truthy one must be a string. *)
Lemma phone_conjunct (x : option value) :
  (truthy x && String.eqb (typeof x) "string" && (0 <? String.length (asString x))%nat)
  || negb (truthy x)
  = negb (truthy x) || String.eqb (typeof x) "string".
Proof.
  destruct x as [[| b | n | s | |]|]; simpl; try reflexivity.
  - by destruct b.
  - by destruct n.
  - by destruct s.
Qed.

(** C3. validateBody accepts a value only if it is an object (neither null
    nor an array) whose email, name and message are strings, with an @ in the
    email and a non-empty name and message; it accepts
    {email: a@b.com, name: X, message: hi}; it rejects whatever has no email,
    whatever has an empty name, and whatever has an email without @. *)
Theorem validateBody_requirements :
  (∀ v, validateBody v = true →
     ∃ props email name message,
       v = VObj props
       ∧ getProp v "email" = Some (VStr email)
       ∧ getProp v "name" = Some (VStr name)
       ∧ getProp v "message" = Some (VStr message)
       ∧ occurs "@" email = true
       ∧ name ≠ EmptyString ∧ message ≠ EmptyString)
  ∧ validateBody
      (VObj [("email", VStr "a@b.com"); ("name", VStr "X"); ("message", VStr "hi")])
    = true
  ∧ (∀ v, getProp v "email" = None → validateBody v = false)
  ∧ (∀ v, getProp v "name" = Some (VStr EmptyString) → validateBody v = false)
  ∧ (∀ v email, getProp v "email" = Some (VStr email) → occurs "@" email = false →
       validateBody v = false).
Proof.
  split; [| split; [reflexivity | split; [| split]]].
  - intros v H. destruct v as [| | | | |props]; try discriminate H.
    rewrite validateBody_obj in H. cbv zeta in H.
    apply andb_prop in H as [H Hmessage]. apply andb_prop in H as [H Hname].
    apply andb_prop in H as [H Hat]. apply andb_prop in H as [H _].
    apply andb_prop in H as [H Hm]. apply andb_prop in H as [He Hn].
    apply typeof_string in He as [email He].
    apply typeof_string in Hn as [name Hn].
    apply typeof_string in Hm as [message Hm].
    rewrite He, Hn, Hm in *. simpl in *.
    exists props, email, name, message.
    rewrite <- includes_occurs. repeat split; try done; by apply length_pos.
  - intros v H. destruct v as [| | | | |props]; try reflexivity.
    rewrite validateBody_obj. cbv zeta. by rewrite H.
  - intros v H. destruct v as [| | | | |props]; try reflexivity.
    rewrite validateBody_obj. cbv zeta. rewrite H. simpl.
    by rewrite andb_false_r.
  - intros v email H Hat. destruct v as [| | | | |props]; try reflexivity.
    rewrite validateBody_obj. cbv zeta. rewrite H. simpl.
    rewrite includes_occurs, Hat. by rewrite andb_false_r.
Qed.

Lemma validateBody_requirements_witness :
  let v := VObj [("email", VStr "ada@example.org"); ("name", VStr "Ada");
                 ("message", VStr "Hello"); ("phone", VStr "+44 20 7946 0000")] in
  validateBody v = true
  ∧ ∃ props email name message,
      v = VObj props
      ∧ getProp v "email" = Some (VStr email)
      ∧ getProp v "name" = Some (VStr name)
      ∧ getProp v "message" = Some (VStr message)
      ∧ occurs "@" email = true
      ∧ name ≠ EmptyString ∧ message ≠ EmptyString.
Proof.
  intros v. split; [reflexivity |].
  apply (proj1 validateBody_requirements v). reflexivity.
Defined.

(** C4, as the code has it: when email, name and message pass, a body without
    phone is accepted, a body whose phone is the empty string is accepted as
    well (an empty phone counts as an absent one), and a body whose phone is a
    non-empty string is accepted; the guard rejects exactly the phones that
    are truthy and not strings. *)
Theorem validateBody_phone (v : value) (email name message : string) :
  getProp v "email" = Some (VStr email) → occurs "@" email = true →
  getProp v "name" = Some (VStr name) → name ≠ EmptyString →
  getProp v "message" = Some (VStr message) → message ≠ EmptyString →
  (getProp v "phone" = None → validateBody v = true)
  ∧ (getProp v "phone" = Some (VStr EmptyString) → validateBody v = true)
  ∧ (∀ p, p ≠ EmptyString → getProp v "phone" = Some (VStr p) → validateBody v = true)
  ∧ validateBody v
    = negb (truthy (getProp v "phone"))
      || String.eqb (typeof (getProp v "phone")) "string".
Proof.
  intros He Hat Hn Hname Hm Hmessage.
  assert (validateBody v
          = negb (truthy (getProp v "phone"))
            || String.eqb (typeof (getProp v "phone")) "string") as Hchar.
  { destruct v as [| | | | |props]; try discriminate He.
    rewrite validateBody_obj. cbv zeta. rewrite phone_conjunct, He, Hn, Hm. simpl.
    rewrite includes_occurs, Hat.
    rewrite (proj2 (length_pos name) Hname), (proj2 (length_pos message) Hmessage).
    by rewrite !andb_true_r. }
  rewrite Hchar. repeat split.
  - by intros ->.
  - by intros ->.
  - intros p Hp ->. simpl. apply orb_true_r.
Qed.

Lemma validateBody_phone_witness :
  let v := VObj [("email", VStr "ada@example.org"); ("name", VStr "Ada");
                 ("message", VStr "Hello"); ("phone", VNum (num 441))] in
  validateBody v = false.
Proof.
  intros v.
  destruct (validateBody_phone v "ada@example.org" "Ada" "Hello")
    as (_ & _ & _ & ->); try reflexivity; discriminate.
Defined.

(** C4 as stated fails on the empty phone: the body below has a phone that is
    the empty string and is accepted. *)
Lemma empty_phone_counterexample :
  let v := VObj [("email", VStr "a@b.com"); ("name", VStr "X");
                 ("message", VStr "hi"); ("phone", VStr EmptyString)] in
  getProp v "phone" = Some (VStr EmptyString) ∧ validateBody v = true.
Proof. split; reflexivity. Qed.

End Validator.

(* ===================================================================== *)
(** * Properties of the dispatcher                                        *)
(* ===================================================================== *)

Section Dispatcher.
Import JS Index Trace.
Implicit Types (config : Config.AppConfig) (w : World) (req : Request)
  (m : gmap string RateLimitEntry).

(** Which origins resolve: the non-empty keys of the store. *)
Lemma getOriginConfig_Some config origin cfg :
  Config.getOriginConfig config origin = Some cfg ↔
  ∃ o, origin = Some o ∧ o ≠ EmptyString ∧ Config.origins config !! o = Some cfg.
Proof.
  unfold Config.getOriginConfig, Config.noOrigin.
  destruct origin as [o|]; simpl.
  - destruct o as [|a o]; simpl.
    + split; [done | by intros (? & [= <-] & ? & _)].
    + split; [by eauto | by intros (? & [= <-] & _ & ?)].
  - split; [done | by intros (? & ? & _)].
Qed.

Lemma corsHeaders_allow_origin config origin :
  corsHeaders config origin !! "Access-Control-Allow-Origin"
  = Some match origin with
         | Some o => if bool_decide (is_Some (Config.origins config !! o)) then o else ""
         | None => ""
         end.
Proof.
  unfold corsHeaders. rewrite lookup_insert_eq. f_equal.
  destruct origin as [o|]; [| done].
  unfold Config.isAllowedOrigin, Config.noOrigin. simpl.
  destruct o as [|a o]; simpl; [by case_bool_decide | done].
Qed.

Lemma corsHeaders_fixed config origin :
  corsHeaders config origin !! "Access-Control-Allow-Methods" = Some "POST, OPTIONS"
  ∧ corsHeaders config origin !! "Access-Control-Allow-Headers" = Some "Content-Type".
Proof. by split. Qed.

(** [json] keeps every header it is given. *)
Lemma json_headers data st (hs : gmap string string) k v :
  hs !! k = Some v → headers (json data st hs) !! k = Some v.
Proof. intros H. simpl. by apply lookup_union_Some_l. Qed.

(** The eight ways a request ends. *)
Lemma fetch_cases config w req m :
  let out := fetch config w req m in
  let cors := corsHeaders config (Origin req) in
  (response out = {| status := 204; headers := cors; body := None |})
  ∨ ∃ data st, response out = json data st cors
               ∧ st ∈ [404; 403; 429; 400; 200; 500].
Proof.
  intros out cors. subst out. unfold fetch. fold cors.
  destruct (String.eqb (method req) "OPTIONS"); [by left | right].
  destruct (negb _ || negb _); [eexists _, _; split; [done | set_solver] |].
  destruct (Config.getOriginConfig config (Origin req)) as [originConfig|];
    [| eexists _, _; split; [done | set_solver]].
  destruct (isRateLimited _ _ m) as [[] m'];
    [eexists _, _; split; [done | set_solver] |].
  destruct (reqJson req) as [body|]; [| eexists _, _; split; [done | set_solver]].
  destruct (negb (validateBody body)); [eexists _, _; split; [done | set_solver] |].
  destruct (Mailer.sendContactEmail _ _ _);
    eexists _, _; (split; [done | set_solver]).
Qed.

(** C5. On every response: Access-Control-Allow-Origin is the request's
    Origin when that origin is a key of the store and the empty string
    otherwise (also when there is no Origin), so that a non-empty Origin is
    echoed only if it is a key; Access-Control-Allow-Methods is
    POST, OPTIONS; the status is one of 204, 404, 403, 429, 400, 200, 500; and
    an OPTIONS request, whatever its path, gets 204 and no body. *)
Theorem cors_headers_everywhere config w req m :
  let out := fetch config w req m in
  let h := headers (response out) in
  (∀ o, Origin req = Some o → is_Some (Config.origins config !! o) →
     h !! "Access-Control-Allow-Origin" = Some o)
  ∧ (∀ o, Origin req = Some o → Config.origins config !! o = None →
     h !! "Access-Control-Allow-Origin" = Some EmptyString)
  ∧ (Origin req = None → h !! "Access-Control-Allow-Origin" = Some EmptyString)
  ∧ (∀ o, Origin req = Some o → o ≠ EmptyString →
     h !! "Access-Control-Allow-Origin" = Some o → is_Some (Config.origins config !! o))
  ∧ h !! "Access-Control-Allow-Methods" = Some "POST, OPTIONS"
  ∧ h !! "Access-Control-Allow-Headers" = Some "Content-Type"
  ∧ status (response out) ∈ [204; 404; 403; 429; 400; 200; 500]
  ∧ (method req = "OPTIONS" →
     status (response out) = 204 ∧ body (response out) = None).
Proof.
  intros out h. subst h out.
  assert (∀ k v, corsHeaders config (Origin req) !! k = Some v →
            headers (response (fetch config w req m)) !! k = Some v)
    as Hkeep.
  { intros k v Hk.
    destruct (fetch_cases config w req m) as [-> | (data & st & -> & _)];
      [done | by apply json_headers]. }
  pose proof (corsHeaders_allow_origin config (Origin req)) as Hallow.
  repeat split.
  - intros o Ho Hkey. apply Hkeep. rewrite Hallow, Ho.
    by rewrite bool_decide_eq_true_2.
  - intros o Ho Hkey. apply Hkeep. rewrite Hallow, Ho.
    rewrite bool_decide_eq_false_2; [done |]. rewrite Hkey. by intros [? ?].
  - intros Ho. apply Hkeep. by rewrite Hallow, Ho.
  - intros o Ho Hne Hhdr.
    destruct (Config.origins config !! o) as [cfg|] eqn:Hkey; [by eexists |].
    rewrite (Hkeep _ EmptyString) in Hhdr; [congruence |].
    rewrite Hallow, Ho. rewrite bool_decide_eq_false_2; [done |].
    rewrite Hkey. by intros [? ?].
  - apply Hkeep, corsHeaders_fixed.
  - apply Hkeep, corsHeaders_fixed.
  - destruct (fetch_cases config w req m) as [-> | (data & st & -> & Hst)];
      simpl; [apply list_elem_of_here | by apply list_elem_of_further].
  - unfold fetch. by rewrite H.
  - unfold fetch. by rewrite H.
Qed.

Lemma cors_headers_everywhere_witness :
  let site := {| Config.name := "Example";
                 Config.toEmail := "owner@known.example";
                 Config.smtp := {| Config.host := "smtp.known.example";
                                   Config.port := num 587;
                                   Config.secure := false;
                                   Config.user := "mailer@known.example";
                                   Config.pass := "secret" |} |} in
  let config := {| Config.listenPort := num 3000;
                   Config.origins := {["https://known.example" := site]} |} in
  let w := {| now := 1000; smtp := λ _ _, true |} in
  let req := {| method := "GET"; pathname := "/"; Origin := Some "https://known.example";
                XForwardedFor := None; requestIP := None; reqJson := None |} in
  status (response (fetch config w req ∅)) = 404
  ∧ headers (response (fetch config w req ∅)) !! "Access-Control-Allow-Origin"
    = Some "https://known.example".
Proof.
  intros site config w req. split; [reflexivity |].
  apply (proj1 (cors_headers_everywhere config w req ∅)); [reflexivity |].
  eexists. reflexivity.
Defined.

(** C1. For a POST to /api/send: when the Origin resolves to no
    configuration the answer is 403, sendContactEmail is not called and the
    rate-limit map is as it was; when the origin resolves and the rate limiter
    rejects the client the answer is 429 and sendContactEmail is not called;
    and an answer of 200 comes with exactly one call of sendContactEmail, made
    with the configuration the Origin resolves to. *)
Theorem dispatch_guards config w req m :
  method req = "POST" → pathname req = "/api/send" →
  let out := fetch config w req m in
  (Config.getOriginConfig config (Origin req) = None →
     status (response out) = 403
     ∧ mailerCalls (events out) = []
     ∧ rateLimitMap out = m)
  ∧ (is_Some (Config.getOriginConfig config (Origin req)) →
     (isRateLimited (clientKey req) (now w) m).1 = true →
     status (response out) = 429
     ∧ mailerCalls (events out) = [])
  ∧ (status (response out) = 200 →
     ∃ data originConfig,
       Config.getOriginConfig config (Origin req) = Some originConfig
       ∧ mailerCalls (events out) = [(data, originConfig)]).
Proof.
  intros Hmethod Hpath out. subst out. unfold fetch.
  rewrite Hmethod, Hpath. simpl.
  destruct (Config.getOriginConfig config (Origin req)) as [originConfig|].
  - split; [done |]. destruct (isRateLimited _ _ m) as [limited m'] eqn:Hlim.
    simpl. split.
    + intros _ ->. done.
    + destruct limited; [done |].
      destruct (reqJson req) as [body|]; [| done].
      destruct (negb (validateBody body)); [done |].
      destruct (Mailer.sendContactEmail _ _ _); [| done].
      intros _. by eexists _, _.
  - split; [done |]. split; [by intros [? ?] | done].
Qed.

Lemma dispatch_guards_witness :
  let site := {| Config.name := "Example";
                 Config.toEmail := "owner@known.example";
                 Config.smtp := {| Config.host := "smtp.known.example";
                                   Config.port := num 587;
                                   Config.secure := false;
                                   Config.user := "mailer@known.example";
                                   Config.pass := "secret" |} |} in
  let config := {| Config.listenPort := num 3000;
                   Config.origins := {["https://known.example" := site]} |} in
  let w := {| now := 1000; smtp := λ _ _, true |} in
  let req := {| method := "POST"; pathname := "/api/send";
                Origin := Some "https://known.example";
                XForwardedFor := Some "203.0.113.7, 10.0.0.1"; requestIP := None;
                reqJson := Some (VObj [("email", VStr "a@b.com"); ("name", VStr "X");
                                       ("message", VStr "hi")]) |} in
  let out := fetch config w req ∅ in
  status (response out) = 200
  ∧ ∃ data originConfig,
      Config.getOriginConfig config (Origin req) = Some originConfig
      ∧ mailerCalls (events out) = [(data, originConfig)].
Proof.
  intros site config w req out. split; [reflexivity |].
  apply (dispatch_guards config w req ∅); reflexivity.
Defined.

(** Six rapid posts of one client with a valid body from a known origin: five
    reach the mailer, the sixth is answered 429 and does not. *)
Example six_rapid_posts :
  let site := {| Config.name := "Example";
                 Config.toEmail := "owner@known.example";
                 Config.smtp := {| Config.host := "smtp.known.example";
                                   Config.port := num 587;
                                   Config.secure := false;
                                   Config.user := "mailer@known.example";
                                   Config.pass := "secret" |} |} in
  let config := {| Config.listenPort := num 3000;
                   Config.origins := {["https://known.example" := site]} |} in
  let req := {| method := "POST"; pathname := "/api/send";
                Origin := Some "https://known.example";
                XForwardedFor := Some "203.0.113.7"; requestIP := None;
                reqJson := Some (VObj [("email", VStr "a@b.com"); ("name", VStr "X");
                                       ("message", VStr "hi")]) |} in
  let at_ (t : Z) := ({| now := t; smtp := λ _ _, true |}, req) in
  serve config [at_ 1000; at_ 1001; at_ 1002; at_ 1003; at_ 1004; at_ 1005] ∅
  = [(200, 1%nat); (200, 1%nat); (200, 1%nat); (200, 1%nat); (200, 1%nat); (429, 0%nat)].
Proof. reflexivity. Qed.

End Dispatcher.

(* ===================================================================== *)
(** * Properties of the configuration loader                              *)
(* ===================================================================== *)

Section Loader.
Import JS Config.

Lemma bind_Ok {A B : Type} (r : result A) (k : A → result B) (b : B) :
  bind r k = Ok b → ∃ a, r = Ok a ∧ k a = Ok b.
Proof. destruct r as [a|e]; simpl; [by eauto | done]. Qed.

Lemma get_Ok (x : option value) (k : string) (y : option value) :
  get x k = Ok y → ∃ v, x = Some v ∧ v ≠ VNull ∧ y = getProp v k.
Proof.
  destruct x as [[]|]; simpl; intros [= <-] || done; by eexists.
Qed.

(** What [loadOrigin] has checked of an origin it stores, and what it stores:
    [toEmail] is a non-empty string, [smtp] an object whose host, user and
    pass are truthy; port and secure get their defaults; [name] is stored as
    found, unchecked. *)
Lemma loadOrigin_Ok (origin : string) (originConfig : value) (c : StoredOrigin) :
  loadOrigin origin originConfig = Ok c →
  ∃ t smtp,
    getProp originConfig "toEmail" = Some (VStr t) ∧ t ≠ EmptyString
    ∧ getProp originConfig "smtp" = Some smtp
    ∧ truthy (getProp smtp "host") = true
    ∧ truthy (getProp smtp "user") = true
    ∧ truthy (getProp smtp "pass") = true
    ∧ c = {| s_name := getProp originConfig "name";
             s_toEmail := Some (VStr t);
             s_smtp := {| s_host := getProp smtp "host";
                          s_port := nullish (getProp smtp "port") (VNum (num 587));
                          s_secure := nullish (getProp smtp "secure") (VBool false);
                          s_user := getProp smtp "user";
                          s_pass := getProp smtp "pass" |} |}.
Proof.
  unfold loadOrigin. intros H.
  apply bind_Ok in H as (toEmail & (v & [= <-] & Hv & ->)%get_Ok & H).
  destruct (truthy (getProp originConfig "toEmail")) eqn:Ht; [| done].
  destruct (String.eqb (typeof (getProp originConfig "toEmail")) "string") eqn:Hty;
    [| done].
  apply typeof_string in Hty as [t Hty]. cbn [negb orb] in H.
  apply bind_Ok in H as (smtp & (v & [= <-] & _ & ->)%get_Ok & H).
  destruct (truthy (getProp originConfig "smtp")) eqn:Hs; [| done].
  destruct (String.eqb (typeof (getProp originConfig "smtp")) "object"); [| done].
  cbn [negb orb] in H.
  apply bind_Ok in H as (host & (s & Hsmtp & _ & ->)%get_Ok & H).
  apply bind_Ok in H as (user & (s' & Hsmtp' & _ & ->)%get_Ok & H).
  apply bind_Ok in H as (pass & (s'' & Hsmtp'' & _ & ->)%get_Ok & H).
  rewrite Hsmtp in Hsmtp', Hsmtp''.
  injection Hsmtp' as <-. injection Hsmtp'' as <-.
  destruct (truthy (getProp s "host")) eqn:Hh; [| done].
  destruct (truthy (getProp s "user")) eqn:Hu; [| done].
  destruct (truthy (getProp s "pass")) eqn:Hp; [| done].
  cbn [negb orb] in H.
  apply bind_Ok in H as (name & (v & [= <-] & _ & ->)%get_Ok & H).
  apply bind_Ok in H as (port & (s' & Hsmtp' & _ & ->)%get_Ok & H).
  apply bind_Ok in H as (secure & (s'' & Hsmtp'' & _ & ->)%get_Ok & H).
  rewrite Hsmtp in Hsmtp', Hsmtp''.
  injection Hsmtp' as <-. injection Hsmtp'' as <-.
  injection H as <-.
  exists t, s. rewrite Hty in *. repeat split; try done.
  intros ->. done.
Qed.

(** Every origin the loop has stored comes from an entry it has accepted, or
    was there before. *)
Lemma loadOrigins_Ok (es : list (string * value)) :
  ∀ (acc m : gmap string StoredOrigin),
  loadOrigins es acc = Ok m →
  Forall (λ e, ∃ c, loadOrigin e.1 e.2 = Ok c) es
  ∧ ∀ origin c, m !! origin = Some c →
      acc !! origin = Some c
      ∨ ∃ originConfig, (origin, originConfig) ∈ es
                        ∧ loadOrigin origin originConfig = Ok c.
Proof.
  induction es as [|[o oc] rest IH]; intros acc m H; simpl in H.
  - injection H as <-. split; [constructor | by left].
  - apply bind_Ok in H as (c & Hc & H).
    destruct (IH _ _ H) as [Hall Hfrom]. split.
    + constructor; [by exists c | done].
    + intros origin c' Hm. destruct (Hfrom origin c' Hm) as [Hacc | (oc' & Hin & Hoc')].
      * rewrite lookup_insert in Hacc. case_decide as Ho.
        -- subst o. injection Hacc as <-. right. exists oc.
           split; [apply list_elem_of_here | done].
        -- by left.
      * right. exists oc'. split; [by apply list_elem_of_further | done].
Qed.

(** A configuration that loads was read from a file named by CONFIG_FILE,
    which parsed to an object with at least one origin, every origin of which
    passed the checks of the loop. *)
Lemma loadConfig_Ok (env : string → option string)
    (readFileSync : string → option string) (JSON_parse : string → option value)
    (Number : option string → number) (cfg : LoadedConfig) :
  loadConfig env readFileSync JSON_parse Number = Ok cfg →
  ∃ configPath fileContent props,
    env "CONFIG_FILE" = Some configPath ∧ configPath ≠ EmptyString
    ∧ readFileSync configPath = Some fileContent
    ∧ JSON_parse fileContent = Some (VObj props)
    ∧ props ≠ []
    ∧ Forall (λ e, ∃ c, loadOrigin e.1 e.2 = Ok c) props
    ∧ ∀ origin c, l_origins cfg !! origin = Some c →
        ∃ originConfig, (origin, originConfig) ∈ props
                        ∧ loadOrigin origin originConfig = Ok c.
Proof.
  unfold loadConfig. intros H.
  destruct (env "CONFIG_FILE") as [configPath|] eqn:Henv; [| done].
  destruct (String.eqb_spec configPath "") as [|Hpath]; [done |].
  destruct (readFileSync configPath) as [fileContent|] eqn:Hread; [| done].
  destruct (JSON_parse fileContent) as [json|] eqn:Hparse; [| done].
  destruct json as [| | | | |props]; try done.
  cbn [typeof isArray negb orb String.eqb entries] in H. simpl in H.
  apply bind_Ok in H as (origins & Horigins & H).
  case_bool_decide as Hsize; [done |]. injection H as <-. simpl.
  destruct (loadOrigins_Ok _ _ _ Horigins) as [Hall Hfrom].
  exists configPath, fileContent, props. repeat split; try done.
  - intros ->. simpl in Horigins. injection Horigins as <-. by apply Hsize.
  - intros origin c Hc. destruct (Hfrom origin c Hc) as [Hempty | ?]; [| done].
    by rewrite lookup_empty in Hempty.
Qed.

(** An origin that lacks toEmail, smtp, or one of smtp.host, smtp.user and
    smtp.pass makes the loop throw. *)
Lemma loadOrigin_missing (origin : string) (originConfig : value) :
  getProp originConfig "toEmail" = None
  ∨ getProp originConfig "smtp" = None
  ∨ (∃ smtp, getProp originConfig "smtp" = Some smtp
             ∧ (getProp smtp "host" = None ∨ getProp smtp "user" = None
                ∨ getProp smtp "pass" = None)) →
  ∃ e, loadOrigin origin originConfig = Throw e.
Proof.
  intros H. destruct (loadOrigin origin originConfig) as [c|e] eqn:E; [| by eauto].
  apply loadOrigin_Ok in E as (t & s & Ht & _ & Hs & Hh & Hu & Hp & _).
  destruct H as [H | [H | (s' & Hs' & H)]]; [congruence | congruence |].
  rewrite Hs in Hs'. injection Hs' as <-.
  destruct H as [H | [H | H]]; rewrite H in *; discriminate.
Qed.

(** Loading fails fast: without CONFIG_FILE, on an unreadable file, on text
    that is not JSON, on a value that is not an object, on an object without
    origins, and on an origin the loop rejects, [loadConfig] throws. *)
Lemma loadConfig_fails_fast (env : string → option string)
    (readFileSync : string → option string) (JSON_parse : string → option value)
    (Number : option string → number) :
  let parsed (r : option value) :=
    ∃ configPath fileContent,
      env "CONFIG_FILE" = Some configPath
      ∧ readFileSync configPath = Some fileContent
      ∧ JSON_parse fileContent = r in
  env "CONFIG_FILE" = None
  ∨ (∃ configPath, env "CONFIG_FILE" = Some configPath
                   ∧ readFileSync configPath = None)
  ∨ parsed None
  ∨ (∃ v, parsed (Some v) ∧ ∀ props, v ≠ VObj props)
  ∨ parsed (Some (VObj []))
  ∨ (∃ props origin originConfig e,
       parsed (Some (VObj props)) ∧ (origin, originConfig) ∈ props
       ∧ loadOrigin origin originConfig = Throw e) →
  ∃ e, loadConfig env readFileSync JSON_parse Number = Throw e.
Proof.
  intros parsed H.
  destruct (loadConfig env readFileSync JSON_parse Number) as [cfg|e] eqn:E;
    [| by eauto].
  apply loadConfig_Ok in E
    as (path & text & props & Henv & _ & Hread & Hparse & Hne & Hall & _).
  assert (∀ r, parsed r → r = Some (VObj props)) as Hsame.
  { intros r (path' & text' & Henv' & Hread' & <-). congruence. }
  destruct H as [H | [(path' & Henv' & H) | [H | [(v & H & Hv) | [H | H]]]]].
  - congruence.
  - congruence.
  - by apply Hsame in H.
  - apply Hsame in H as [= ->]. by destruct (Hv props).
  - apply Hsame in H as [= <-]. done.
  - destruct H as (props' & origin & oc & e & H & Hin & Hthrow).
    apply Hsame in H as [= ->].
    rewrite Forall_forall in Hall. destruct (Hall _ Hin) as [c Hc].
    simpl in Hc. congruence.
Qed.

(** C9, where the code departs from it: an origin without name passes the
    loader.  The file below holds one origin with toEmail and
    smtp.host/user/pass but no name; loadConfig returns, the stored origin has
    an undefined name (port and secure get their defaults 587 and false), and
    so it is not of the OriginConfig shape the interfaces declare. *)
Theorem loadConfig_accepts_missing_name :
  let smtp := VObj [("host", VStr "smtp.known.example"); ("user", VStr "mailer");
                    ("pass", VStr "secret")] in
  let originConfig := VObj [("toEmail", VStr "owner@known.example"); ("smtp", smtp)] in
  let file := VObj [("https://known.example", originConfig)] in
  let env := λ key : string,
    if String.eqb key "CONFIG_FILE" then Some "/etc/email-api/origins.json" else None in
  let stored :=
    {| s_name := None;
       s_toEmail := Some (VStr "owner@known.example");
       s_smtp := {| s_host := Some (VStr "smtp.known.example");
                    s_port := VNum (num 587);
                    s_secure := VBool false;
                    s_user := Some (VStr "mailer");
                    s_pass := Some (VStr "secret") |} |} in
  getProp originConfig "name" = None
  ∧ loadConfig env (λ _, Some "the text of the file") (λ _, Some file) (λ _, S754_nan)
    = Ok {| l_port := num 3000; l_origins := {["https://known.example" := stored]} |}
  ∧ conforms stored = None.
Proof. cbv zeta. split; [reflexivity |]. split; reflexivity. Qed.

End Loader.

(* ===================================================================== *)
(** * More on the rate limiter                                            *)
(* ===================================================================== *)

Set Warnings "-clear-no-such-hyp".

Section RateLimiterRuns.
Import Index Run.
Implicit Types (m : gmap string RateLimitEntry) (ip : string) (e : RateLimitEntry).

Lemma isRateLimited_dom ip now m :
  dom (isRateLimited ip now m).2 = {[ip]} ∪ dom m.
Proof.
  unfold isRateLimited.
  destruct (m !! ip) as [e|]; [destruct (now >? resetAt e) |];
    simpl; by rewrite dom_insert_L.
Qed.

(** What a check answers and stores for a client depends on the map through
    that client's entry only. *)
Lemma isRateLimited_local ip now m m' :
  m !! ip = m' !! ip →
  (isRateLimited ip now m).1 = (isRateLimited ip now m').1
  ∧ (isRateLimited ip now m).2 !! ip = (isRateLimited ip now m').2 !! ip.
Proof.
  intros H. unfold isRateLimited. rewrite <- H.
  destruct (m !! ip) as [e|]; [destruct (now >? resetAt e) |];
    simpl; by rewrite !lookup_insert_eq.
Qed.

Lemma answers_local ip (calls : list call) : ∀ m m',
  m !! ip = m' !! ip → answers ip calls m = answers ip calls m'.
Proof.
  induction calls as [|[ip' now] rest IH]; intros m m' H; simpl; [done |].
  destruct (isRateLimited ip' now m) as [r m1] eqn:E1.
  destruct (isRateLimited ip' now m') as [r' m1'] eqn:E1'.
  assert (m1 !! ip = m1' !! ip) as Hnext.
  { replace m1 with (isRateLimited ip' now m).2 by by rewrite E1.
    replace m1' with (isRateLimited ip' now m').2 by by rewrite E1'.
    destruct (decide (ip' = ip)) as [->|Hne].
    - by apply isRateLimited_local.
    - by rewrite !isRateLimited_frame. }
  destruct (decide (ip' = ip)) as [->|Hne]; [| by apply IH].
  f_equal; [| by apply IH].
  replace r with (isRateLimited ip now m).1 by by rewrite E1.
  replace r' with (isRateLimited ip now m').1 by by rewrite E1'.
  by apply isRateLimited_local.
Qed.

Lemma answers_app ip (calls more : list call) : ∀ m,
  answers ip (calls ++ more) m = answers ip calls m ++ answers ip more (final calls m).
Proof.
  induction calls as [|[ip' now] rest IH]; intros m; simpl; [done |].
  destruct (isRateLimited ip' now m) as [r m1] eqn:E. simpl.
  destruct (decide (ip' = ip)); by rewrite IH.
Qed.

Lemma final_app (calls more : list call) : ∀ m,
  final (calls ++ more) m = final more (final calls m).
Proof. induction calls as [|[ip' now] rest IH]; intros m; simpl; [done | apply IH]. Qed.

Lemma timesOf_own ip (ts : list Z) : timesOf ip ((λ t, (ip, t)) <$> ts) = ts.
Proof.
  induction ts as [|t ts IH]; [done |].
  rewrite fmap_cons. cbn [timesOf]. rewrite decide_True by done. by rewrite IH.
Qed.

(** X1. The rate-limit map never loses a key: after any run of checks its keys
    are the keys it had and the client keys of the calls. *)
Theorem rate_limit_map_only_grows (calls : list call) m :
  dom (final calls m) = dom m ∪ list_to_set calls.*1.
Proof.
  revert m. induction calls as [|[ip now] rest IH]; intros m; simpl.
  - set_solver.
  - rewrite IH, isRateLimited_dom. set_solver.
Qed.

Lemma final_local ip (calls : list call) : ∀ m m',
  m !! ip = m' !! ip → final calls m !! ip = final calls m' !! ip.
Proof.
  induction calls as [|[ip' now] rest IH]; intros m m' H; simpl; [done |].
  apply IH. destruct (decide (ip' = ip)) as [->|Hne].
  - by apply isRateLimited_local.
  - by rewrite !isRateLimited_frame.
Qed.

(** X2. Clients do not interfere: the answers a client gets in a run, and its
    entry afterwards, are those it would get if only its own calls were made. *)
Theorem clients_are_isolated ip (calls : list call) m :
  let own := (λ t, (ip, t)) <$> timesOf ip calls in
  answers ip calls m = answers ip own m
  ∧ final calls m !! ip = final own m !! ip.
Proof.
  revert m. induction calls as [|[ip' now] rest IH]; intros m; [done |].
  cbn [timesOf answers final]. cbv zeta.
  destruct (isRateLimited ip' now m) as [r m1] eqn:E. simpl.
  destruct (IH m1) as [Ha Hf].
  destruct (decide (ip' = ip)) as [->|Hne].
  - rewrite fmap_cons. cbn [answers final]. rewrite E, decide_True by done.
    simpl. by rewrite Ha, Hf.
  - assert (m1 !! ip = m !! ip) as Hsame.
    { replace m1 with (isRateLimited ip' now m).2 by by rewrite E.
      by apply isRateLimited_frame. }
    rewrite Ha, Hf. split; [by apply answers_local | by apply final_local].
Qed.

(** The entry of a client after some of its calls at the times [seen]. *)
Lemma entry_provenance ip (calls : list call) : ∀ m (seen : list Z),
  (∀ e, m !! ip = Some e →
     1 ≤ count e ≤ Z.of_nat (length seen)
     ∧ ∃ t, t ∈ seen ∧ resetAt e = t + RATE_WINDOW_MS) →
  ∀ e, final calls m !! ip = Some e →
    1 ≤ count e ≤ Z.of_nat (length (seen ++ timesOf ip calls))
    ∧ ∃ t, t ∈ seen ++ timesOf ip calls ∧ resetAt e = t + RATE_WINDOW_MS.
Proof.
  induction calls as [|[ip' now] rest IH]; intros m seen Hm e He; simpl in *.
  - rewrite app_nil_r. by apply Hm.
  - destruct (decide (ip' = ip)) as [->|Hne].
    + replace (seen ++ now :: timesOf ip rest)
        with ((seen ++ [now]) ++ timesOf ip rest) by by rewrite <- app_assoc.
      apply (IH (isRateLimited ip now m).2); [| done].
      intros e' He'. rewrite length_app. simpl.
      destruct (m !! ip) as [e0|] eqn:Hm0.
      * destruct (Hm e0 eq_refl) as (Hc & t & Ht & Hr).
        destruct (Z.le_gt_cases now (resetAt e0)) as [Hlive|Hexp].
        -- rewrite (isRateLimited_live _ _ _ _ Hm0 Hlive) in He'. simpl in He'.
           rewrite lookup_insert_eq in He'. injection He' as <-. simpl.
           split; [lia |]. exists t. split; [set_solver | done].
        -- rewrite (isRateLimited_expired _ _ _ _ Hm0 Hexp) in He'. simpl in He'.
           rewrite lookup_insert_eq in He'. injection He' as <-. simpl.
           split; [lia |]. exists now. split; [set_solver | done].
      * rewrite (isRateLimited_fresh _ _ _ Hm0) in He'. simpl in He'.
        rewrite lookup_insert_eq in He'. injection He' as <-. simpl.
        split; [lia |]. exists now. split; [set_solver | done].
    + apply (IH (isRateLimited ip' now m).2); [| done].
      intros e'. rewrite isRateLimited_frame by done. apply Hm.
Qed.

(** X3. Starting from the empty map, the entry of a client counts at least one
    and at most as many calls as the client has made, and its resetAt is the
    time of one of these calls plus 60000. *)
Theorem entries_come_from_calls ip (calls : list call) e :
  final calls ∅ !! ip = Some e →
  1 ≤ count e ≤ Z.of_nat (length (timesOf ip calls))
  ∧ ∃ t, t ∈ timesOf ip calls ∧ resetAt e = t + 60000.
Proof.
  intros He. apply (entry_provenance ip calls ∅ [] ); [| done].
  intros e'. by rewrite lookup_empty.
Qed.

Lemma entries_come_from_calls_witness :
  let calls := [("203.0.113.7", 1000); ("198.51.100.2", 1500); ("203.0.113.7", 2000);
                ("203.0.113.7", 70000)] in
  final calls ∅ !! "203.0.113.7" = Some {| count := 1; resetAt := 130000 |}
  ∧ 1 ≤ 1 ≤ 3
  ∧ ∃ t, t ∈ [1000; 2000; 70000] ∧ 130000 = t + 60000.
Proof.
  intros calls. split; [reflexivity |].
  apply (entries_come_from_calls "203.0.113.7" calls
           {| count := 1; resetAt := 130000 |}).
  reflexivity.
Defined.

(** X4. The fixed window lets a burst through at its boundary: five calls of a
    new client up to and including resetAt and five more just after it, ten in
    all, are all allowed, however close the two groups are. *)
Theorem burst_across_boundary ip m (t0 t1 : Z) (ts0 ts1 : list Z) :
  m !! ip = None →
  length ts0 = 4%nat → Forall (λ t, t ≤ t0 + 60000) ts0 →
  t0 + 60000 < t1 →
  length ts1 = 4%nat → Forall (λ t, t ≤ t1 + 60000) ts1 →
  answers ip ((λ t, (ip, t)) <$> (t0 :: ts0) ++ (t1 :: ts1)) m = replicate 10 false.
Proof.
  intros Hm Hlen0 Hts0 Hlate Hlen1 Hts1.
  rewrite fmap_app, answers_app.
  destruct (fresh_window ip ((λ t, (ip, t)) <$> t0 :: ts0) m t0 ts0 Hm) as [Ha Hf];
    [apply timesOf_own | done |].
  rewrite Ha, Hlen0. rewrite Hlen0 in Hf. simpl in Hf.
  set (m1 := final ((λ t, (ip, t)) <$> t0 :: ts0) m) in *.
  rewrite fmap_cons. cbn [answers].
  rewrite (isRateLimited_expired ip t1 m1 _ Hf) by (simpl; unfold RATE_WINDOW_MS; lia).
  rewrite decide_True by done.
  set (e1 := {| count := 1; resetAt := t1 + RATE_WINDOW_MS |}).
  destruct (live_window ip ((λ t, (ip, t)) <$> ts1) (<[ip := e1]> m1) e1) as [Ha1 _];
    [apply lookup_insert_eq | by rewrite timesOf_own |].
  rewrite Ha1, timesOf_own, Hlen1. reflexivity.
Qed.

Lemma burst_across_boundary_witness :
  answers "203.0.113.7"
    ((λ t, ("203.0.113.7", t)) <$>
       [0; 60000; 60000; 60000; 60000; 60001; 60001; 60001; 60001; 60001]) ∅
  = replicate 10 false.
Proof.
  apply (burst_across_boundary "203.0.113.7" ∅ 0 60001
           [60000; 60000; 60000; 60000] [60001; 60001; 60001; 60001]);
    try reflexivity; try lia; repeat constructor; lia.
Defined.

End RateLimiterRuns.

(* ===================================================================== *)
(** * More on the validator                                               *)
(* ===================================================================== *)

Section ValidatorMore.
Import JS Text Index.

Lemma assoc_skip (k k' : string) (x : value) (pre post : list (string * value)) :
  k ≠ k' → assoc k' (pre ++ (k, x) :: post) = assoc k' (pre ++ post).
Proof.
  intros Hne. induction pre as [|[k0 v0] pre IH]; simpl.
  - by rewrite (proj2 (String.eqb_neq k k')).
  - by rewrite IH.
Qed.

(** X5. validateBody accepts exactly the objects whose email, name and
    message are strings, with an @ in the email, a non-empty name and message,
    and a phone that is falsy (absent, null, false, zero, empty) or a string. *)
Theorem validateBody_accepts_iff (v : value) :
  validateBody v = true ↔
  ∃ props email name message,
    v = VObj props
    ∧ getProp v "email" = Some (VStr email)
    ∧ getProp v "name" = Some (VStr name)
    ∧ getProp v "message" = Some (VStr message)
    ∧ occurs "@" email = true
    ∧ name ≠ EmptyString ∧ message ≠ EmptyString
    ∧ (truthy (getProp v "phone") = false ∨ ∃ p, getProp v "phone" = Some (VStr p)).
Proof.
  split.
  - intros H. destruct v as [| | | | |props]; try discriminate H.
    rewrite validateBody_obj in H. cbv zeta in H. rewrite phone_conjunct in H.
    apply andb_prop in H as [H Hmessage]. apply andb_prop in H as [H Hname].
    apply andb_prop in H as [H Hat]. apply andb_prop in H as [H Hphone].
    apply andb_prop in H as [H Hm]. apply andb_prop in H as [He Hn].
    apply typeof_string in He as [email He].
    apply typeof_string in Hn as [name Hn].
    apply typeof_string in Hm as [message Hm].
    rewrite He, Hn, Hm in *. simpl in Hat, Hname, Hmessage.
    exists props, email, name, message.
    rewrite <- includes_occurs.
    repeat split; try done; try by apply length_pos.
    apply orb_prop in Hphone as [Hphone | Hphone].
    + left. by apply negb_true_iff.
    + right. by apply typeof_string.
  - intros (props & email & name & message & -> & He & Hn & Hm & Hat & Hname
            & Hmessage & Hphone).
    rewrite validateBody_obj. cbv zeta. rewrite phone_conjunct, He, Hn, Hm.
    assert (negb (truthy (getProp (VObj props) "phone"))
            || String.eqb (typeof (getProp (VObj props) "phone")) "string" = true)
      as -> by (destruct Hphone as [-> | [p ->]]; [done | apply orb_true_r]).
    simpl. rewrite includes_occurs, Hat.
    by rewrite (proj2 (length_pos name) Hname), (proj2 (length_pos message) Hmessage).
Qed.

Lemma validateBody_accepts_iff_witness :
  validateBody (VObj [("email", VStr "a@b.com"); ("name", VStr "X");
                      ("message", VStr "hi"); ("phone", VNull)]) = true.
Proof.
  apply (proj2 (validateBody_accepts_iff _)).
  exists [("email", VStr "a@b.com"); ("name", VStr "X"); ("message", VStr "hi");
          ("phone", VNull)], "a@b.com", "X", "hi".
  repeat split; try reflexivity; try discriminate. by left.
Defined.

(** X6. validateBody looks at email, name, message and phone only: a property
    of any other name, wherever it stands in the object, changes neither the
    verdict nor the data handed to the mailer. *)
Theorem validateBody_ignores_other_fields (pre post : list (string * value))
    (k : string) (x : value) :
  k ∉ ["email"; "name"; "message"; "phone"] →
  validateBody (VObj (pre ++ (k, x) :: post)) = validateBody (VObj (pre ++ post))
  ∧ asContactFormData (VObj (pre ++ (k, x) :: post))
    = asContactFormData (VObj (pre ++ post)).
Proof.
  intros Hk.
  assert (∀ k', k' ∈ ["email"; "name"; "message"; "phone"] →
            getProp (VObj (pre ++ (k, x) :: post)) k' = getProp (VObj (pre ++ post)) k')
    as Hsame.
  { intros k' Hk'. simpl. apply assoc_skip. intros ->. done. }
  split.
  - rewrite !validateBody_obj. cbv zeta.
    rewrite !(Hsame "email"), !(Hsame "name"), !(Hsame "message"), !(Hsame "phone");
      (done || set_solver).
  - unfold asContactFormData.
    rewrite !(Hsame "email"), !(Hsame "name"), !(Hsame "message"), !(Hsame "phone");
      (done || set_solver).
Qed.

Lemma validateBody_ignores_other_fields_witness :
  validateBody (VObj [("email", VStr "a@b.com"); ("website", VStr "spam");
                      ("name", VStr "X"); ("message", VStr "hi")])
  = validateBody (VObj [("email", VStr "a@b.com"); ("name", VStr "X");
                        ("message", VStr "hi")]).
Proof.
  apply (validateBody_ignores_other_fields [("email", VStr "a@b.com")]
           [("name", VStr "X"); ("message", VStr "hi")] "website" (VStr "spam")).
  intros H. repeat (apply elem_of_cons in H as [H | H]; [discriminate H |]).
  by apply elem_of_nil in H.
Defined.

End ValidatorMore.

(* ===================================================================== *)
(** * More on the dispatcher                                              *)
(* ===================================================================== *)

Section DispatcherMore.
Import JS Index Trace Logs.
Implicit Types (config : Config.AppConfig) (w : World) (req : Request)
  (m : gmap string RateLimitEntry).

(** The eight paths through the handler, each with the conditions that lead
    to it and all it does. *)
Lemma fetch_paths config w req m :
  let cors := corsHeaders config (Origin req) in
  let lim := isRateLimited (clientKey req) (now w) m in
  let out := fetch config w req m in
  let post := method req = "POST" ∧ pathname req = "/api/send" in
  (method req = "OPTIONS"
   ∧ out = {| response := {| status := 204; headers := cors; body := None |};
              rateLimitMap := m; events := [] |})
  ∨ (method req ≠ "OPTIONS" ∧ (pathname req ≠ "/api/send" ∨ method req ≠ "POST")
     ∧ out = {| response := json (errorBody "Not found") 404 cors;
                rateLimitMap := m; events := [Log warn "Not found"] |})
  ∨ (post ∧ Config.getOriginConfig config (Origin req) = None
     ∧ out = {| response := json (errorBody "Forbidden") 403 cors;
                rateLimitMap := m; events := [Log warn "Forbidden origin"] |})
  ∨ (post ∧ is_Some (Config.getOriginConfig config (Origin req)) ∧ lim.1 = true
     ∧ out = {| response := json (errorBody "Too many requests") 429 cors;
                rateLimitMap := lim.2; events := [Log warn "Rate limited"] |})
  ∨ (post ∧ is_Some (Config.getOriginConfig config (Origin req)) ∧ lim.1 = false
     ∧ reqJson req = None
     ∧ out = {| response := json (errorBody "Invalid JSON") 400 cors;
                rateLimitMap := lim.2; events := [Log warn "Invalid JSON"] |})
  ∨ (∃ reqBody,
       post ∧ is_Some (Config.getOriginConfig config (Origin req)) ∧ lim.1 = false
       ∧ reqJson req = Some reqBody ∧ validateBody reqBody = false
       ∧ out = {| response :=
                    json (errorBody "Invalid body. Required: email, name, message") 400 cors;
                  rateLimitMap := lim.2; events := [Log warn "Invalid body"] |})
  ∨ (∃ reqBody originConfig,
       post ∧ Config.getOriginConfig config (Origin req) = Some originConfig
       ∧ lim.1 = false ∧ reqJson req = Some reqBody ∧ validateBody reqBody = true
       ∧ smtp w (Mailer.transportOptions originConfig)
           (Mailer.mailOptions (asContactFormData reqBody) originConfig) = true
       ∧ out = {| response := json (VObj [("success", VBool true)]) 200 cors;
                  rateLimitMap := lim.2;
                  events := [SendContactEmail (asContactFormData reqBody) originConfig;
                             Log info "Email sent"] |})
  ∨ (∃ reqBody originConfig,
       post ∧ Config.getOriginConfig config (Origin req) = Some originConfig
       ∧ lim.1 = false ∧ reqJson req = Some reqBody ∧ validateBody reqBody = true
       ∧ smtp w (Mailer.transportOptions originConfig)
           (Mailer.mailOptions (asContactFormData reqBody) originConfig) = false
       ∧ out = {| response := json (errorBody "Failed to send email") 500 cors;
                  rateLimitMap := lim.2;
                  events := [SendContactEmail (asContactFormData reqBody) originConfig;
                             Log error "Failed to send email"] |}).
Proof.
  intros cors lim out post. subst out post. unfold fetch. fold cors.
  destruct (String.eqb_spec (method req) "OPTIONS") as [Hopt|Hopt]; [by left |].
  right.
  destruct (String.eqb_spec (pathname req) "/api/send") as [Hpath|Hpath];
    [| left; by eauto].
  destruct (String.eqb_spec (method req) "POST") as [Hpost|Hpost];
    [| left; by eauto].
  right. simpl.
  destruct (Config.getOriginConfig config (Origin req)) as [originConfig|];
    [| by left].
  right. fold lim. destruct lim as [limited m'] eqn:Hlim. simpl.
  destruct limited; [left; by eauto |]. right.
  destruct (reqJson req) as [reqBody|]; [| left; by eauto]. right.
  destruct (validateBody reqBody) eqn:Hvalid; [| left; exists reqBody; by eauto].
  right. simpl. unfold Mailer.sendContactEmail.
  destruct (smtp w _ _) eqn:Hsent; [left | right];
    exists reqBody, originConfig; by eauto 10.
Qed.

Ltac by_paths config w req m :=
  let H := fresh "Hpaths" in
  pose proof (fetch_paths config w req m) as H; cbv zeta in H;
  destruct H as
    [(Hopt & Hout)
    |[(Hnopt & Hnf & Hout)
    |[((Hpost & Hpath) & Horigin & Hout)
    |[((Hpost & Hpath) & Horigin & Hlim & Hout)
    |[((Hpost & Hpath) & Horigin & Hlim & Hjson & Hout)
    |[(reqBody & (Hpost & Hpath) & Horigin & Hlim & Hjson & Hvalid & Hout)
    |[(reqBody & originConfig & (Hpost & Hpath) & Horigin & Hlim & Hjson & Hvalid
       & Hsent & Hout)
    |(reqBody & originConfig & (Hpost & Hpath) & Horigin & Hlim & Hjson & Hvalid
      & Hsent & Hout)]]]]]]];
  rewrite Hout; clear Hout.

(** What a body the guard accepts holds in the three required fields. *)
Lemma validated_fields (b : value) :
  validateBody b = true →
  Text.occurs "@" (asString (getProp b "email")) = true
  ∧ asString (getProp b "name") ≠ EmptyString
  ∧ asString (getProp b "message") ≠ EmptyString.
Proof.
  intros H. destruct b as [| | | | |props]; try discriminate H.
  rewrite validateBody_obj in H. cbv zeta in H.
  apply andb_prop in H as [H Hmessage]. apply andb_prop in H as [H Hname].
  apply andb_prop in H as [H Hat].
  rewrite <- includes_occurs. repeat split; [done | |]; by apply length_pos.
Qed.

(** X7. A request that is neither OPTIONS nor a POST to /api/send is answered
    404 whatever its Origin, before the origin is looked at: the rate-limit
    map stays as it is and the mailer is not called. *)
Theorem not_found_whatever_the_origin config w req m :
  method req ≠ "OPTIONS" →
  pathname req ≠ "/api/send" ∨ method req ≠ "POST" →
  let out := fetch config w req m in
  status (response out) = 404
  ∧ body (response out) = Some (errorBody "Not found")
  ∧ rateLimitMap out = m
  ∧ mailerCalls (events out) = [].
Proof.
  intros Hm Hp out. subst out. by_paths config w req m; try done;
    destruct Hp; congruence.
Qed.

Lemma not_found_whatever_the_origin_witness :
  let config := {| Config.listenPort := num 3000; Config.origins := ∅ |} in
  let w := {| now := 1000; smtp := λ _ _, true |} in
  let req := {| method := "POST"; pathname := "/api/other"; Origin := None;
                XForwardedFor := None; requestIP := None; reqJson := None |} in
  status (response (fetch config w req ∅)) = 404.
Proof.
  intros config w req.
  apply (not_found_whatever_the_origin config w req ∅);
    [discriminate | left; discriminate].
Defined.

(** X8. A POST to /api/send from a known origin that passes the rate limiter
    with a body that is not JSON, or that the guard rejects, is answered 400
    without a call of the mailer, and the attempt has been counted: the map
    is the one the rate limiter left. *)
Theorem bad_request_is_counted config w req m :
  method req = "POST" → pathname req = "/api/send" →
  is_Some (Config.getOriginConfig config (Origin req)) →
  (isRateLimited (clientKey req) (now w) m).1 = false →
  reqJson req = None ∨ (∃ b, reqJson req = Some b ∧ validateBody b = false) →
  let out := fetch config w req m in
  status (response out) = 400
  ∧ mailerCalls (events out) = []
  ∧ rateLimitMap out = (isRateLimited (clientKey req) (now w) m).2
  ∧ is_Some (rateLimitMap out !! clientKey req).
Proof.
  intros Hm Hp [cfg Ho] Hl Hbad out. subst out.
  assert (is_Some ((isRateLimited (clientKey req) (now w) m).2 !! clientKey req))
    as Hcounted.
  { apply elem_of_dom. rewrite isRateLimited_dom. set_solver. }
  by_paths config w req m; simpl; try done; try congruence.
  - destruct Hnf; congruence.
  - destruct Hbad as [? | (b & ? & ?)]; congruence.
  - destruct Hbad as [? | (b & ? & ?)]; congruence.
Qed.

Lemma bad_request_is_counted_witness :
  let site := {| Config.name := "Example";
                 Config.toEmail := "owner@known.example";
                 Config.smtp := {| Config.host := "smtp.known.example";
                                   Config.port := num 587;
                                   Config.secure := false;
                                   Config.user := "mailer@known.example";
                                   Config.pass := "secret" |} |} in
  let config := {| Config.listenPort := num 3000;
                   Config.origins := {["https://known.example" := site]} |} in
  let w := {| now := 1000; smtp := λ _ _, true |} in
  let req := {| method := "POST"; pathname := "/api/send";
                Origin := Some "https://known.example";
                XForwardedFor := Some "203.0.113.7"; requestIP := None;
                reqJson := Some (VObj [("email", VStr "nobody"); ("name", VStr "X");
                                       ("message", VStr "hi")]) |} in
  status (response (fetch config w req ∅)) = 400
  ∧ rateLimitMap (fetch config w req ∅) !! "203.0.113.7"
    = Some {| count := 1; resetAt := 61000 |}.
Proof.
  intros site config w req.
  destruct (bad_request_is_counted config w req ∅) as (Hst & _ & Hmap & _);
    [reflexivity | reflexivity | by eexists | reflexivity
    | right; eexists; split; reflexivity |].
  split; [exact Hst | rewrite Hmap; reflexivity].
Defined.

(** X9. For a POST to /api/send from a known origin that passes the rate
    limiter with a body the guard accepts, the mailer is called once, with the
    body and the origin's configuration, and the fate of the delivery of the
    message built from them decides the answer: 200 with success when it
    is delivered, 500 with a fixed error when it is not. *)
Theorem delivery_decides_the_answer config w req m
    (cfg : Config.OriginConfig) (b : value) :
  method req = "POST" → pathname req = "/api/send" →
  Config.getOriginConfig config (Origin req) = Some cfg →
  (isRateLimited (clientKey req) (now w) m).1 = false →
  reqJson req = Some b → validateBody b = true →
  let out := fetch config w req m in
  let data := asContactFormData b in
  let delivered :=
    smtp w (Mailer.transportOptions cfg) (Mailer.mailOptions data cfg) in
  status (response out) = (if delivered then 200 else 500)
  ∧ body (response out)
    = Some (if delivered then VObj [("success", VBool true)]
            else errorBody "Failed to send email")
  ∧ mailerCalls (events out) = [(data, cfg)]
  ∧ rateLimitMap out = (isRateLimited (clientKey req) (now w) m).2.
Proof.
  intros Hm Hp Ho Hl Hj Hv out data delivered. subst out data delivered.
  by_paths config w req m; simpl; try congruence;
    try (destruct Hnf; congruence); try (destruct Horigin; congruence).
  - rewrite Ho in Horigin. injection Horigin as <-.
    rewrite Hj in Hjson. injection Hjson as <-. by rewrite Hsent.
  - rewrite Ho in Horigin. injection Horigin as <-.
    rewrite Hj in Hjson. injection Hjson as <-. by rewrite Hsent.
Qed.

Lemma delivery_decides_the_answer_witness :
  let site := {| Config.name := "Example";
                 Config.toEmail := "owner@known.example";
                 Config.smtp := {| Config.host := "smtp.known.example";
                                   Config.port := num 587;
                                   Config.secure := false;
                                   Config.user := "mailer@known.example";
                                   Config.pass := "secret" |} |} in
  let config := {| Config.listenPort := num 3000;
                   Config.origins := {["https://known.example" := site]} |} in
  let w := {| now := 1000; smtp := λ _ _, false |} in
  let req := {| method := "POST"; pathname := "/api/send";
                Origin := Some "https://known.example";
                XForwardedFor := None; requestIP := Some "203.0.113.7";
                reqJson := Some (VObj [("email", VStr "a@b.com"); ("name", VStr "X");
                                       ("message", VStr "hi")]) |} in
  status (response (fetch config w req ∅)) = 500
  ∧ body (response (fetch config w req ∅)) = Some (errorBody "Failed to send email").
Proof.
  intros site config w req.
  destruct (delivery_decides_the_answer config w req ∅ site
              (VObj [("email", VStr "a@b.com"); ("name", VStr "X");
                     ("message", VStr "hi")]))
    as (Hst & Hbody & _); try reflexivity.
  split; [exact Hst | exact Hbody].
Defined.

(** X10. What a request does to the rate-limit map: nothing when it is
    answered 204, 404 or 403, one check of its client key otherwise; the
    entries of all other clients stay as they are and no key is lost. *)
Theorem fetch_rate_limit_effect config w req m :
  let out := fetch config w req m in
  (status (response out) ∈ [204; 404; 403] → rateLimitMap out = m)
  ∧ (status (response out) ∈ [429; 400; 200; 500] →
     rateLimitMap out = (isRateLimited (clientKey req) (now w) m).2)
  ∧ (∀ ip, ip ≠ clientKey req → rateLimitMap out !! ip = m !! ip)
  ∧ dom m ⊆ dom (rateLimitMap out).
Proof.
  intros out. subst out.
  assert (∀ st : Z, st ∈ [204; 404; 403] → st ∈ [429; 400; 200; 500] → False)
    as Hexcl.
  { intros st H1 H2.
    repeat (apply elem_of_cons in H1 as [-> | H1];
            [repeat (apply elem_of_cons in H2 as [H2 | H2]; [discriminate H2 |]);
             by apply elem_of_nil in H2 |]).
    by apply elem_of_nil in H1. }
  by_paths config w req m; simpl;
    (split; [| split; [| split]]);
    try done;
    try (intros H; exfalso; apply (Hexcl _ H) || apply (λ H', Hexcl _ H' H);
         repeat first [apply list_elem_of_here | apply list_elem_of_further]);
    try (intros ip Hip; by apply isRateLimited_frame);
    try (rewrite isRateLimited_dom; set_solver).
Qed.

Lemma fetch_rate_limit_effect_witness :
  let config := {| Config.listenPort := num 3000; Config.origins := ∅ |} in
  let w := {| now := 1000; smtp := λ _ _, true |} in
  let req := {| method := "POST"; pathname := "/api/send";
                Origin := Some "https://unknown.example";
                XForwardedFor := Some "203.0.113.7"; requestIP := None;
                reqJson := None |} in
  let m := {["203.0.113.7" := {| count := 2; resetAt := 61000 |}]} in
  rateLimitMap (fetch config w req m) = m.
Proof.
  intros config w req m.
  apply (fetch_rate_limit_effect config w req m).
  do 2 apply list_elem_of_further. apply list_elem_of_here.
Defined.

(** X11. Response bodies are fixed texts: the body is empty or one of seven
    JSON documents written in the handler, so nothing of the request, of the
    configuration or of a delivery failure is echoed; every answer but the 204
    is typed application/json. *)
Theorem responses_are_generic config w req m :
  let out := fetch config w req m in
  body (response out) ∈
    [None;
     Some (errorBody "Not found");
     Some (errorBody "Forbidden");
     Some (errorBody "Too many requests");
     Some (errorBody "Invalid JSON");
     Some (errorBody "Invalid body. Required: email, name, message");
     Some (VObj [("success", VBool true)]);
     Some (errorBody "Failed to send email")]
  ∧ headers (response out) !! "Content-Type"
    = (if status (response out) =? 204 then None else Some "application/json")
  ∧ (body (response out) = None ↔ status (response out) = 204).
Proof.
  intros out. subst out.
  by_paths config w req m; simpl; (split; [| split; [| done]]);
    try reflexivity;
    repeat first [apply list_elem_of_here | apply list_elem_of_further].
Qed.

(** X12. A request answered 204 logs nothing; every other request logs one
    line, at level error exactly when the answer is 500 and at level info
    exactly when it is 200. *)
Theorem one_log_line_per_request config w req m :
  let out := fetch config w req m in
  (status (response out) = 204 → logged (events out) = [])
  ∧ (status (response out) ≠ 204 →
     ∃ l message, logged (events out) = [(l, message)]
                  ∧ (l = error ↔ status (response out) = 500)
                  ∧ (l = info ↔ status (response out) = 200)).
Proof.
  intros out. subst out.
  by_paths config w req m; simpl; (split; [done |]); try done;
    intros _; eexists _, _; (split; [reflexivity |]); by split.
Qed.

Lemma one_log_line_per_request_witness :
  let config := {| Config.listenPort := num 3000; Config.origins := ∅ |} in
  let w := {| now := 1000; smtp := λ _ _, true |} in
  let req := {| method := "POST"; pathname := "/api/send";
                Origin := Some "https://unknown.example";
                XForwardedFor := None; requestIP := None; reqJson := None |} in
  ∃ l message, logged (events (fetch config w req ∅)) = [(l, message)]
               ∧ (l = error ↔ status (response (fetch config w req ∅)) = 500)
               ∧ (l = info ↔ status (response (fetch config w req ∅)) = 200).
Proof.
  intros config w req.
  apply (one_log_line_per_request config w req ∅). discriminate.
Defined.

(** X13. The mailer is called at most once per request, and called exactly
    when the answer is 200 or 500; what it is called with is the origin's
    configuration and the data of a body the guard has accepted: an email
    with an @, a non-empty name and a non-empty message. *)
Theorem mailer_gets_validated_data config w req m :
  let out := fetch config w req m in
  (length (mailerCalls (events out)) ≤ 1)%nat
  ∧ (mailerCalls (events out) ≠ [] ↔
     status (response out) = 200 ∨ status (response out) = 500)
  ∧ (∀ data cfg, (data, cfg) ∈ mailerCalls (events out) →
       Config.getOriginConfig config (Origin req) = Some cfg
       ∧ (∃ b, reqJson req = Some b ∧ validateBody b = true
               ∧ data = asContactFormData b)
       ∧ Text.occurs "@" (Mailer.email data) = true
       ∧ Mailer.name data ≠ EmptyString
       ∧ Mailer.message data ≠ EmptyString).
Proof.
  intros out. subst out.
  by_paths config w req m; simpl; (split; [lia |]);
    (split; [split; [done || (intros _; by eauto) | by intros [? | ?]] |]);
    intros data cfg Hin;
    try (by apply elem_of_nil in Hin);
    apply list_elem_of_singleton in Hin; injection Hin as -> ->;
    (split; [done |]); (split; [by eauto |]);
    by apply validated_fields.
Qed.

Lemma mailer_gets_validated_data_witness :
  let site := {| Config.name := "Example";
                 Config.toEmail := "owner@known.example";
                 Config.smtp := {| Config.host := "smtp.known.example";
                                   Config.port := num 587;
                                   Config.secure := false;
                                   Config.user := "mailer@known.example";
                                   Config.pass := "secret" |} |} in
  let config := {| Config.listenPort := num 3000;
                   Config.origins := {["https://known.example" := site]} |} in
  let w := {| now := 1000; smtp := λ _ _, false |} in
  let req := {| method := "POST"; pathname := "/api/send";
                Origin := Some "https://known.example";
                XForwardedFor := None; requestIP := None;
                reqJson := Some (VObj [("email", VStr "a@b.com"); ("name", VStr "X");
                                       ("message", VStr "hi")]) |} in
  mailerCalls (events (fetch config w req ∅)) ≠ [].
Proof.
  intros site config w req.
  apply (mailer_gets_validated_data config w req ∅). right. reflexivity.
Defined.

End DispatcherMore.

(* ===================================================================== *)
(** * The client key                                                      *)
(* ===================================================================== *)

Section ClientKey.
Import JS Text Index.

Lemma occurs_trimStart a (s : string) :
  occurs a s = false → occurs a (trimStart s) = false.
Proof.
  induction s as [|b s IH]; simpl; [done |].
  intros [Hb Hs]%orb_false_iff.
  destruct (isWhiteSpace b); [by apply IH | simpl; by rewrite Hb, Hs].
Qed.

Lemma occurs_trimEnd a (s : string) :
  occurs a s = false → occurs a (trimEnd s) = false.
Proof.
  induction s as [|b s IH]; simpl; [done |].
  intros [Hb Hs]%orb_false_iff. specialize (IH Hs).
  destruct (trimEnd s) as [|c t].
  - destruct (isWhiteSpace b); simpl; [done | by rewrite Hb].
  - change (occurs a (String b (String c t)) = false).
    cbn [occurs] in *. by rewrite Hb, IH.
Qed.

Lemma occurs_splitFirst sep (s : string) : occurs sep (splitFirst sep s) = false.
Proof.
  induction s as [|b s IH]; simpl; [done |].
  destruct (Ascii.eqb b sep) eqn:Hb; simpl; [done | by rewrite Hb, IH].
Qed.

Lemma splitFirst_first sep (s rest : string) :
  occurs sep s = false →
  splitFirst sep (s +:+ String sep rest) = s ∧ splitFirst sep s = s.
Proof.
  induction s as [|b s IH]; simpl.
  - by rewrite Ascii.eqb_refl.
  - intros [Hb Hs]%orb_false_iff. rewrite Hb.
    destruct (IH Hs) as [-> ->]. done.
Qed.

(** What [trimStart] leaves is empty or starts with something else than
    white space. *)
Lemma trimStart_head (s : string) :
  trimStart s = EmptyString
  ∨ ∃ a t, trimStart s = String a t ∧ isWhiteSpace a = false.
Proof.
  induction s as [|b s IH]; simpl; [by left |].
  destruct (isWhiteSpace b) eqn:Hb; [done | right; by eauto].
Qed.

Lemma trimEnd_head a (t : string) :
  isWhiteSpace a = false → ∃ t', trimEnd (String a t) = String a t'.
Proof.
  intros Ha. simpl. destruct (trimEnd t); rewrite ?Ha; by eauto.
Qed.

(** What [trimEnd] leaves does not end with white space. *)
Lemma trimEnd_last (s : string) : ∀ pre a,
  trimEnd s = pre +:+ String a EmptyString → isWhiteSpace a = false.
Proof.
  induction s as [|b s IH]; intros pre a H; simpl in H.
  - by destruct pre.
  - destruct (trimEnd s) as [|c t] eqn:Ht.
    + destruct (isWhiteSpace b) eqn:Hb; [by destruct pre |].
      destruct pre as [|p pre]; simpl in H; [by injection H as <- |].
      injection H as _ H. by destruct pre.
    + destruct pre as [|p pre]; simpl in H; [discriminate H |].
      injection H as _ H. by apply (IH pre a).
Qed.

Lemma trimEnd_idem (s : string) : trimEnd (trimEnd s) = trimEnd s.
Proof.
  induction s as [|b s IH]; simpl; [done |].
  destruct (trimEnd s) as [|c t] eqn:Ht.
  - destruct (isWhiteSpace b) eqn:Hb; simpl; [done | by rewrite Hb].
  - change (trimEnd (String b (String c t)) = String b (String c t)).
    cbn [trimEnd]. cbn [trimEnd] in IH. rewrite IH. done.
Qed.

Lemma trim_idem (s : string) : trim (trim s) = trim s.
Proof.
  unfold trim. destruct (trimStart_head s) as [-> | (a & t & -> & Ha)]; [done |].
  destruct (trimEnd_head a t Ha) as [t' Ht']. rewrite Ht' at 1.
  simpl trimStart. rewrite Ha, <- Ht'. apply trimEnd_idem.
Qed.

Lemma trim_first (s : string) a t : trim s = String a t → isWhiteSpace a = false.
Proof.
  unfold trim. destruct (trimStart_head s) as [-> | (b & u & -> & Hb)]; [done |].
  destruct (trimEnd_head b u Hb) as [u' ->]. by intros [= <- _].
Qed.

(** X14. With an X-Forwarded-For header the client key is well formed: it
    holds no comma, neither starts nor ends with white space, and trimming it
    again changes nothing; a header that is empty or starts with a comma gives
    the empty key (and not the peer address or unknown). *)
Theorem clientKey_of_forwarded (req : Request) (xff : string) :
  XForwardedFor req = Some xff →
  let k := clientKey req in
  occurs "," k = false
  ∧ trim k = k
  ∧ (∀ a rest, k = String a rest → isWhiteSpace a = false)
  ∧ (∀ pre a, k = pre +:+ String a EmptyString → isWhiteSpace a = false)
  ∧ (xff = EmptyString ∨ (∃ rest, xff = String "," rest) → k = EmptyString).
Proof.
  intros Hx k. subst k. unfold clientKey. rewrite Hx.
  split; [| split; [| split; [| split]]].
  - unfold trim. apply occurs_trimEnd, occurs_trimStart, occurs_splitFirst.
  - apply trim_idem.
  - intros a rest. apply trim_first.
  - intros pre a. unfold trim. apply trimEnd_last.
  - by intros [-> | [rest ->]].
Qed.

Lemma clientKey_of_forwarded_witness :
  let req := {| method := "POST"; pathname := "/api/send"; Origin := None;
                XForwardedFor := Some "  203.0.113.7 , 10.0.0.1";
                requestIP := Some "10.0.0.1"; reqJson := None |} in
  clientKey req = "203.0.113.7" ∧ occurs "," (clientKey req) = false.
Proof.
  intros req. split; [reflexivity |].
  apply (clientKey_of_forwarded req "  203.0.113.7 , 10.0.0.1"). reflexivity.
Defined.

(** X15. Only the first entry of X-Forwarded-For counts: two requests whose
    headers agree up to the first comma have the same client key, whatever
    follows the comma. *)
Theorem clientKey_first_entry (req req' : Request) (first rest : string) :
  occurs "," first = false →
  XForwardedFor req = Some first →
  XForwardedFor req' = Some (first +:+ String "," rest) →
  clientKey req' = clientKey req ∧ clientKey req = trim first.
Proof.
  intros Hfirst Hx Hx'. unfold clientKey. rewrite Hx, Hx'.
  destruct (splitFirst_first "," first rest Hfirst) as [-> ->]. done.
Qed.

Lemma clientKey_first_entry_witness :
  let req := {| method := "POST"; pathname := "/api/send"; Origin := None;
                XForwardedFor := Some "203.0.113.7";
                requestIP := None; reqJson := None |} in
  let req' := {| method := "POST"; pathname := "/api/send"; Origin := None;
                 XForwardedFor := Some "203.0.113.7, 198.51.100.2, 10.0.0.1";
                 requestIP := Some "10.0.0.1"; reqJson := None |} in
  clientKey req' = clientKey req.
Proof.
  intros req req'.
  apply (clientKey_first_entry req req' "203.0.113.7" " 198.51.100.2, 10.0.0.1");
    reflexivity.
Defined.

End ClientKey.

(* ===================================================================== *)
(** * More on the mailer                                                  *)
(* ===================================================================== *)

Section Escaping.
Import JS Text Escape Mailer.

Lemma replaceAll_app c r (s t : string) :
  replaceAll c r (s +:+ t) = replaceAll c r s +:+ replaceAll c r t.
Proof.
  induction s as [|a s IH]; simpl; [done |].
  destruct (Ascii.eqb a c); simpl; rewrite IH; [by rewrite append_assoc | done].
Qed.

Lemma escapeHtml_char (a : ascii) : escapeHtml (String a EmptyString) = escapeChar a.
Proof.
  unfold escapeHtml, escapeChar. cbn [replaceAll].
  destruct (Ascii.eqb_spec a "&") as [->|_]; [reflexivity |]. cbn [replaceAll].
  destruct (Ascii.eqb_spec a "<") as [->|_]; [reflexivity |]. cbn [replaceAll].
  destruct (Ascii.eqb_spec a ">") as [->|_]; [reflexivity |]. cbn [replaceAll].
  destruct (Ascii.eqb_spec a dquote) as [->|_]; reflexivity.
Qed.

Lemma escapeHtml_cons (a : ascii) (s : string) :
  escapeHtml (String a s) = escapeChar a +:+ escapeHtml s.
Proof.
  rewrite <- escapeHtml_char.
  change (String a s) with (String a EmptyString +:+ s).
  unfold escapeHtml. by rewrite !replaceAll_app.
Qed.

(** What one code unit becomes: one of the four entities, or itself. *)
Lemma escapeChar_cases (a : ascii) :
  (a = "&"%char ∧ escapeChar a = "&amp;")
  ∨ (a = "<"%char ∧ escapeChar a = "&lt;")
  ∨ (a = ">"%char ∧ escapeChar a = "&gt;")
  ∨ (a = dquote ∧ escapeChar a = "&quot;")
  ∨ (escapeChar a = String a EmptyString ∧ a ≠ "&"%char ∧ special a = false).
Proof.
  unfold escapeChar, special.
  destruct (Ascii.eqb_spec a "&") as [->|?]; [by left |].
  destruct (Ascii.eqb_spec a "<") as [->|?]; [by right; left |].
  destruct (Ascii.eqb_spec a ">") as [->|?]; [by right; right; left |].
  destruct (Ascii.eqb_spec a dquote) as [->|?]; [by right; right; right; left |].
  by right; right; right; right.
Qed.

Lemma length_append (s t : string) :
  String.length (s +:+ t) = (String.length s + String.length t)%nat.
Proof. induction s as [|a s IH]; simpl; [done | by rewrite IH]. Qed.

Lemma escapeChar_length (a : ascii) :
  (1 ≤ String.length (escapeChar a))%nat
  ∧ (special a = true → 4 ≤ String.length (escapeChar a))%nat.
Proof.
  destruct (escapeChar_cases a)
    as [[-> ->] | [[-> ->] | [[-> ->] | [[-> ->] | (-> & _ & ->)]]]];
    simpl; split; (lia || done).
Qed.

Lemma escapeOnce_length (s : string) :
  (String.length s ≤ String.length (escapeOnce s))%nat.
Proof.
  induction s as [|a s IH]; simpl; [done |].
  rewrite length_append. pose proof (proj1 (escapeChar_length a)). lia.
Qed.

Lemma plain_cons (a : ascii) (s : string) :
  plain (String a s) = negb (special a) && plain s.
Proof.
  unfold plain, special. cbn [occurs].
  destruct (Ascii.eqb a "&"), (Ascii.eqb a "<"), (Ascii.eqb a ">"),
    (Ascii.eqb a dquote), (occurs "&" s), (occurs "<" s), (occurs ">" s),
    (occurs dquote s); reflexivity.
Qed.

Lemma escapeOnce_inj (s : string) : ∀ t, escapeOnce s = escapeOnce t → s = t.
Proof.
  induction s as [|a s IH]; intros [|b t] H; simpl in H.
  - done.
  - destruct (escapeChar_cases b)
      as [[_ Hb] | [[_ Hb] | [[_ Hb] | [[_ Hb] | (Hb & _)]]]];
      rewrite Hb in H; discriminate H.
  - destruct (escapeChar_cases a)
      as [[_ Ha] | [[_ Ha] | [[_ Ha] | [[_ Ha] | (Ha & _)]]]];
      rewrite Ha in H; discriminate H.
  - destruct (escapeChar_cases a)
      as [[-> Ha] | [[-> Ha] | [[-> Ha] | [[-> Ha] | (Ha & Hna & _)]]]];
    destruct (escapeChar_cases b)
      as [[-> Hb] | [[-> Hb] | [[-> Hb] | [[-> Hb] | (Hb & Hnb & _)]]]];
      rewrite ?Ha, ?Hb in H; simpl in H; try discriminate H;
      injection H as H; subst; try congruence;
      f_equal; by apply IH.
Qed.

(** X16. The four successive replacements of escapeHtml amount to one pass
    over the string that turns &, <, > and the double quote into their
    entities and keeps every other character: the ampersands of the entities
    are never escaped again. *)
Theorem escapeHtml_single_pass (s : string) : escapeHtml s = escapeOnce s.
Proof.
  induction s as [|a s IH]; [reflexivity |].
  rewrite escapeHtml_cons, IH. reflexivity.
Qed.

(** X17. Escaping commutes with concatenation: escaping the pieces one by one
    and joining them is escaping the joined text. *)
Theorem escapeHtml_app (s t : string) :
  escapeHtml (s +:+ t) = escapeHtml s +:+ escapeHtml t.
Proof. unfold escapeHtml. by rewrite !replaceAll_app. Qed.

(** X18. Escaping loses nothing: two different strings have different
    escaped forms (so a visitor's literal &lt; and a visitor's < stay apart). *)
Theorem escapeHtml_injective (s t : string) :
  s ≠ t → escapeHtml s ≠ escapeHtml t.
Proof.
  assert (∀ u, escapeHtml u = escapeOnce u) as Hpass.
  { induction u as [|a u IH]; [reflexivity |].
    rewrite escapeHtml_cons, IH. reflexivity. }
  rewrite !Hpass. intros Hne Heq. by apply Hne, escapeOnce_inj.
Qed.

Lemma escapeHtml_injective_witness : escapeHtml "<" ≠ escapeHtml "&lt;".
Proof. apply (escapeHtml_injective "<" "&lt;"). discriminate. Defined.

(** X19. The strings escapeHtml leaves as they are are exactly those without
    &, <, > and the double quote; on any other string the result is longer. *)
Theorem escapeHtml_fixed_iff_plain (s : string) :
  (escapeHtml s = s ↔ plain s = true)
  ∧ (plain s = false → (String.length s < String.length (escapeHtml s))%nat).
Proof.
  assert (∀ u, escapeHtml u = escapeOnce u) as Hpass.
  { induction u as [|a u IH]; [reflexivity |].
    rewrite escapeHtml_cons, IH. reflexivity. }
  rewrite Hpass.
  assert (plain s = false → (String.length s < String.length (escapeOnce s))%nat)
    as Hlonger.
  { induction s as [|a s IH]; [discriminate |].
    rewrite plain_cons. simpl. rewrite length_append.
    pose proof (escapeChar_length a) as [H1 H4].
    pose proof (escapeOnce_length s).
    destruct (special a); simpl; [intros _; specialize (H4 eq_refl); lia |].
    intros Hs. specialize (IH Hs). lia. }
  split; [| exact Hlonger]. split.
  - intros Hfix. destruct (plain s) eqn:Hp; [done |].
    specialize (Hlonger eq_refl). rewrite Hfix in Hlonger. lia.
  - intros Hp. clear Hlonger. induction s as [|a s IH]; [done |].
    rewrite plain_cons in Hp. apply andb_prop in Hp as [Ha Hs].
    simpl. rewrite (IH Hs).
    destruct (escapeChar_cases a)
      as [[-> _] | [[-> _] | [[-> _] | [[-> _] | (-> & _)]]]]; done.
Qed.

Lemma escapeHtml_fixed_iff_plain_witness :
  (String.length "Tom & Jerry" < String.length (escapeHtml "Tom & Jerry"))%nat.
Proof. apply (escapeHtml_fixed_iff_plain "Tom & Jerry"). reflexivity. Defined.

End Escaping.

Section MailBody.
Import JS Text Escape Mailer.

Ltac ends_nonblank :=
  first [ by (simpl; discriminate) | apply trimEnd_app_blank; ends_nonblank ].

(** The HTML part once [trim] has done its work. *)
Lemma mailOptions_html (data : ContactFormData) (cfg : Config.OriginConfig) :
  html (mailOptions data cfg)
  = "<p><strong>From:</strong> " +:+ escapeHtml (name data)
    +:+ " &lt;" +:+ escapeHtml (email data) +:+ " "
    +:+ ifPhone (phone data) (λ p, "&lt;" +:+ escapeHtml p) ""
    +:+ "&gt;</p>" +:+ String LF "      <hr>"
    +:+ String LF "      <p>" +:+ replaceAll LF "<br>" (escapeHtml (message data))
    +:+ "</p>".
Proof.
  cbv beta iota zeta delta [mailOptions html trim].
  change (trimStart (String LF "      <p><strong>From:</strong> " +:+ ?rest))
    with ("<p><strong>From:</strong> " +:+ rest).
  rewrite !trimEnd_app_ne by ends_nonblank.
  reflexivity.
Qed.

Lemma countc_app a (s t : string) : countc a (s +:+ t) = (countc a s + countc a t)%nat.
Proof. induction s as [|b s IH]; simpl; [done | rewrite IH; lia]. Qed.

Lemma countc_absent a (s : string) : occurs a s = false → countc a s = 0%nat.
Proof.
  induction s as [|b s IH]; simpl; [done |].
  intros [-> Hs]%orb_false_iff. by rewrite IH.
Qed.

(** Counting [a] after [c] has been replaced by [r], for [a] other than [c]. *)
Lemma countc_replaceAll a c r (s : string) :
  Ascii.eqb c a = false →
  countc a (replaceAll c r s) = (countc a s + countc c s * countc a r)%nat.
Proof.
  intros Hne. induction s as [|b s IH]; simpl; [done |].
  destruct (Ascii.eqb_spec b c) as [->|Hbc].
  - rewrite countc_app, IH, Hne. lia.
  - simpl. rewrite IH. destruct (Ascii.eqb b a); lia.
Qed.

Lemma countc_LF_escapeHtml (s : string) : countc LF (escapeHtml s) = countc LF s.
Proof.
  unfold escapeHtml. rewrite !countc_replaceAll by reflexivity. simpl. lia.
Qed.

Lemma countc_escaped (s : string) :
  countc "<" (escapeHtml s) = 0%nat
  ∧ countc ">" (escapeHtml s) = 0%nat
  ∧ countc dquote (escapeHtml s) = 0%nat.
Proof.
  destruct (escapeHtml_no_markup s) as (H1 & H2 & H3).
  repeat split; by apply countc_absent.
Qed.

Lemma countc_phone (phone : option string) :
  let part := ifPhone phone (λ p, "&lt;" +:+ escapeHtml p) "" in
  countc "<" part = 0%nat ∧ countc ">" part = 0%nat ∧ countc dquote part = 0%nat.
Proof.
  destruct phone as [p|]; [| done]. unfold ifPhone.
  destruct (truthy (Some (VStr p))); [| done].
  destruct (countc_escaped p) as (H1 & H2 & H3).
  rewrite !countc_app, H1, H2, H3. done.
Qed.

(** X20. The visitor adds no markup to the HTML part: whatever the name,
    email, phone and message are, the part holds exactly the seven tags of the
    template and one <br> per newline of the message (seven < and seven >
    plus one of each per newline) and no double quote. *)
Theorem html_markup_is_the_templates (data : ContactFormData)
    (cfg : Config.OriginConfig) :
  let part := html (mailOptions data cfg) in
  countc "<" part = (7 + countc LF (message data))%nat
  ∧ countc ">" part = (7 + countc LF (message data))%nat
  ∧ countc dquote part = 0%nat.
Proof.
  intros part. subst part. rewrite mailOptions_html.
  destruct (countc_escaped (name data)) as (Hn1 & Hn2 & Hn3).
  destruct (countc_escaped (email data)) as (He1 & He2 & He3).
  destruct (countc_escaped (message data)) as (Hm1 & Hm2 & Hm3).
  destruct (countc_phone (phone data)) as (Hp1 & Hp2 & Hp3). cbv zeta in Hp1, Hp2, Hp3.
  rewrite !countc_app, !countc_replaceAll by reflexivity.
  rewrite countc_LF_escapeHtml.
  rewrite Hn1, Hn2, Hn3, He1, He2, He3, Hm1, Hm2, Hm3, Hp1, Hp2, Hp3.
  simpl. repeat split; lia.
Qed.

(** X21. A phone that is falsy (the empty string, null, false, zero) is
    handled as no phone at all: the guard gives the same verdict with and
    without it, and the message built from the body is the same. *)
Theorem falsy_phone_is_no_phone (pre post : list (string * value)) (x : value)
    (cfg : Config.OriginConfig) :
  truthy (Some x) = false →
  assoc "phone" (pre ++ post) = None →
  let withPhone := VObj (pre ++ ("phone", x) :: post) in
  let without := VObj (pre ++ post) in
  Index.validateBody withPhone = Index.validateBody without
  ∧ mailOptions (Index.asContactFormData withPhone) cfg
    = mailOptions (Index.asContactFormData without) cfg.
Proof.
  intros Hx Hnone withPhone without. subst withPhone without.
  assert (∀ k, k ≠ "phone" →
            getProp (VObj (pre ++ ("phone", x) :: post)) k
            = getProp (VObj (pre ++ post)) k) as Hsame.
  { intros k Hk. simpl. apply assoc_skip. congruence. }
  assert (getProp (VObj (pre ++ ("phone", x) :: post)) "phone" = Some x) as Hphone.
  { simpl. clear Hsame. induction pre as [|[k0 v0] pre IH]; simpl in *; [done |].
    destruct (String.eqb k0 "phone"); [done | by apply IH]. }
  assert (getProp (VObj (pre ++ post)) "phone" = None) as Hnone' by done.
  split.
  - rewrite !validateBody_obj. cbv zeta. rewrite !phone_conjunct.
    rewrite !(Hsame "email"), !(Hsame "name"), !(Hsame "message") by done.
    by rewrite Hphone, Hnone', Hx.
  - unfold Index.asContactFormData.
    rewrite !(Hsame "email"), !(Hsame "name"), !(Hsame "message") by done.
    rewrite Hphone, Hnone'.
    destruct x as [| | | p | |]; try reflexivity.
    destruct p; [reflexivity | discriminate Hx].
Qed.

Lemma falsy_phone_is_no_phone_witness :
  Index.validateBody
    (VObj [("email", VStr "a@b.com"); ("phone", VStr EmptyString);
           ("name", VStr "X"); ("message", VStr "hi")])
  = Index.validateBody
      (VObj [("email", VStr "a@b.com"); ("name", VStr "X"); ("message", VStr "hi")]).
Proof.
  apply (falsy_phone_is_no_phone [("email", VStr "a@b.com")]
           [("name", VStr "X"); ("message", VStr "hi")] (VStr EmptyString)
           {| Config.name := "Example"; Config.toEmail := "owner@known.example";
              Config.smtp := {| Config.host := "smtp.known.example";
                                Config.port := num 587; Config.secure := false;
                                Config.user := "mailer"; Config.pass := "secret" |} |});
    reflexivity.
Defined.

End MailBody.

(* ===================================================================== *)
(** * More on the configuration                                           *)
(* ===================================================================== *)

Section ConfigMore.
Import JS Config.

(** X22. CORS and dispatch agree on which origins are known: isAllowedOrigin
    holds exactly when getOriginConfig finds a configuration; a missing or
    empty Origin is never known, even if the store has the empty key. *)
Theorem origin_resolution_agrees (config : AppConfig) (origin : option string) :
  (isAllowedOrigin config origin = true ↔ is_Some (getOriginConfig config origin))
  ∧ (origin = None ∨ origin = Some EmptyString →
     isAllowedOrigin config origin = false ∧ getOriginConfig config origin = None).
Proof.
  unfold isAllowedOrigin, getOriginConfig, noOrigin. split.
  - destruct origin as [[|a o]|]; simpl.
    + split; [done | by intros [? ?]].
    + rewrite bool_decide_eq_true. done.
    + split; [done | by intros [? ?]].
  - by intros [-> | ->].
Qed.

Lemma origin_resolution_agrees_witness :
  let site := {| name := "Example"; toEmail := "owner@known.example";
                 smtp := {| host := "smtp.known.example"; port := num 587;
                            secure := false; user := "mailer"; pass := "secret" |} |} in
  let config := {| listenPort := num 3000; origins := {["" := site]} |} in
  isAllowedOrigin config (Some EmptyString) = false
  ∧ getOriginConfig config (Some EmptyString) = None.
Proof.
  intros site config.
  apply (origin_resolution_agrees config (Some EmptyString)). by right.
Defined.

(** The loader, taken apart: what it read and how the result is made. *)
Lemma loadConfig_inv (env : string → option string)
    (readFileSync : string → option string) (JSON_parse : string → option value)
    (Number : option string → number) (cfg : LoadedConfig) :
  loadConfig env readFileSync JSON_parse Number = Ok cfg →
  ∃ configPath fileContent props,
    env "CONFIG_FILE" = Some configPath ∧ configPath ≠ EmptyString
    ∧ readFileSync configPath = Some fileContent
    ∧ JSON_parse fileContent = Some (VObj props)
    ∧ loadOrigins props ∅ = Ok (l_origins cfg)
    ∧ size (l_origins cfg) ≠ 0%nat
    ∧ l_port cfg = (if truthy (Some (VNum (Number (env "PORT"))))
                    then Number (env "PORT") else num 3000).
Proof.
  unfold loadConfig. intros H.
  destruct (env "CONFIG_FILE") as [configPath|] eqn:Henv; [| done].
  destruct (String.eqb_spec configPath "") as [|Hpath]; [done |].
  destruct (readFileSync configPath) as [fileContent|] eqn:Hread; [| done].
  destruct (JSON_parse fileContent) as [json|] eqn:Hparse; [| done].
  destruct json as [| | | | |props]; try done.
  cbn [typeof isArray negb orb String.eqb entries] in H. simpl in H.
  apply bind_Ok in H as (origins & Horigins & H).
  case_bool_decide as Hsize; [done |]. injection H as <-. simpl.
  by exists configPath, fileContent, props.
Qed.

Lemma loadOrigins_other (es : list (string * value)) (origin : string) :
  ∀ (acc m : gmap string StoredOrigin),
  loadOrigins es acc = Ok m → origin ∉ es.*1 → m !! origin = acc !! origin.
Proof.
  induction es as [|[o oc] rest IH]; intros acc m H Hnot; simpl in H.
  - by injection H as <-.
  - apply bind_Ok in H as (c & Hc & H).
    rewrite fmap_cons in Hnot. simpl in Hnot.
    apply not_elem_of_cons in Hnot as [Hne Hnot].
    rewrite (IH _ _ H Hnot). by rewrite lookup_insert_ne.
Qed.

Lemma loadOrigins_dom (es : list (string * value)) :
  ∀ (acc m : gmap string StoredOrigin),
  loadOrigins es acc = Ok m → dom m = dom acc ∪ list_to_set es.*1.
Proof.
  induction es as [|[o oc] rest IH]; intros acc m H; simpl in H.
  - injection H as <-. set_solver.
  - apply bind_Ok in H as (c & Hc & H).
    rewrite (IH _ _ H), dom_insert_L. set_solver.
Qed.

Lemma loadOrigins_lookup (es : list (string * value)) :
  ∀ (acc m : gmap string StoredOrigin),
  loadOrigins es acc = Ok m → NoDup es.*1 →
  ∀ origin originConfig, (origin, originConfig) ∈ es →
    ∃ c, m !! origin = Some c ∧ loadOrigin origin originConfig = Ok c.
Proof.
  induction es as [|[o oc] rest IH]; intros acc m H Hnodup origin originConfig Hin.
  - by apply elem_of_nil in Hin.
  - simpl in H. apply bind_Ok in H as (c & Hc & H).
    rewrite fmap_cons in Hnodup. simpl in Hnodup.
    apply NoDup_cons in Hnodup as [Ho Hnodup].
    apply elem_of_cons in Hin as [[= -> ->] | Hin].
    + exists c. split; [| done].
      rewrite (loadOrigins_other _ _ _ _ H Ho). apply lookup_insert_eq.
    + by apply (IH _ _ H Hnodup).
Qed.



(** X24. Nothing of a file that loads is dropped: the keys of the store are
    the origins of the file, and when these are distinct each origin is found
    in the store with what the loop made of its entry. *)
Theorem every_origin_is_stored (env : string → option string)
    (readFileSync : string → option string) (JSON_parse : string → option value)
    (Number : option string → number) (cfg : LoadedConfig)
    (configPath fileContent : string) (props : list (string * value)) :
  loadConfig env readFileSync JSON_parse Number = Ok cfg →
  env "CONFIG_FILE" = Some configPath →
  readFileSync configPath = Some fileContent →
  JSON_parse fileContent = Some (VObj props) →
  dom (l_origins cfg) = list_to_set props.*1
  ∧ (NoDup props.*1 →
     ∀ origin originConfig, (origin, originConfig) ∈ props →
       ∃ c, l_origins cfg !! origin = Some c ∧ loadOrigin origin originConfig = Ok c).
Proof.
  intros H Henv Hread Hparse.
  destruct (loadConfig_inv _ _ _ _ _ H)
    as (path & text & props' & Henv' & _ & Hread' & Hparse' & Hload & _).
  rewrite Henv in Henv'. injection Henv' as <-.
  rewrite Hread in Hread'. injection Hread' as <-.
  rewrite Hparse in Hparse'. injection Hparse' as <-.
  split.
  - rewrite (loadOrigins_dom _ _ _ Hload). set_solver.
  - intros Hnodup. by apply (loadOrigins_lookup props ∅).
Qed.

Lemma every_origin_is_stored_witness :
  let smtp := VObj [("host", VStr "smtp.known.example"); ("user", VStr "mailer");
                    ("pass", VStr "secret")] in
  let site (name : string) :=
    VObj [("name", VStr name); ("toEmail", VStr "owner@known.example"); ("smtp", smtp)] in
  let file := VObj [("https://a.example", site "A"); ("https://b.example", site "B")] in
  let env := λ key : string,
    if String.eqb key "CONFIG_FILE" then Some "/etc/email-api/origins.json" else None in
  let stored (name : string) :=
    {| s_name := Some (VStr name);
       s_toEmail := Some (VStr "owner@known.example");
       s_smtp := {| s_host := Some (VStr "smtp.known.example");
                    s_port := VNum (num 587);
                    s_secure := VBool false;
                    s_user := Some (VStr "mailer");
                    s_pass := Some (VStr "secret") |} |} in
  let cfg := {| l_port := num 3000;
                l_origins := <["https://b.example" := stored "B"]>
                               (<["https://a.example" := stored "A"]> ∅) |} in
  dom (l_origins cfg) = list_to_set ["https://a.example"; "https://b.example"].
Proof.
  intros smtp site file env stored cfg.
  apply (every_origin_is_stored env (λ _, Some "the text of the file")
           (λ _, Some file) (λ _, S754_nan) cfg "/etc/email-api/origins.json"
           "the text of the file" [("https://a.example", site "A");
                                   ("https://b.example", site "B")]);
    reflexivity.
Defined.



(** X26. Which error an origin raises, in the order of the checks: TypeError
    for a null entry; otherwise an invalid toEmail unless toEmail is a
    non-empty string; then an invalid smtp unless smtp is an object (or an
    array); then missing smtp fields unless host, user and pass are all
    truthy. *)
Theorem loadOrigin_errors (origin : string) (originConfig : value) :
  loadOrigin origin VNull = Throw TypeError
  ∧ (originConfig ≠ VNull →
     (∀ t, getProp originConfig "toEmail" = Some (VStr t) → t = EmptyString) →
     loadOrigin origin originConfig = Throw (InvalidToEmail origin))
  ∧ (∀ t, getProp originConfig "toEmail" = Some (VStr t) → t ≠ EmptyString →
       ((∀ s, getProp originConfig "smtp" = Some s →
              s = VNull ∨ typeof (Some s) ≠ "object") →
        loadOrigin origin originConfig = Throw (InvalidSmtp origin))
       ∧ (∀ s, getProp originConfig "smtp" = Some s →
               s ≠ VNull → typeof (Some s) = "object" →
               truthy (getProp s "host") && truthy (getProp s "user")
               && truthy (getProp s "pass") = false →
               loadOrigin origin originConfig = Throw (MissingSmtpFields origin))).
Proof.
  split; [reflexivity |]. split.
  - intros Hnull Hto. unfold loadOrigin.
    destruct originConfig as [| | | | |props]; try done.
    cbn [get bind].
    destruct (getProp (VObj props) "toEmail") as [[| | |t| |]|] eqn:E;
      try (by rewrite (Hto t eq_refl));
      cbn [typeof String.eqb Ascii.eqb Bool.eqb negb]; by rewrite ?orb_true_r.
  - intros t Hto Ht.
    assert (originConfig ≠ VNull) as Hnull by (intros ->; discriminate Hto).
    assert (get (Some originConfig) "toEmail" = Ok (Some (VStr t))) as Hget.
    { destruct originConfig; try done. simpl. by rewrite <- Hto. }
    assert (∀ k, get (Some originConfig) k = Ok (getProp originConfig k)) as Hgetk.
    { intros k. by destruct originConfig. }
    assert (truthy (Some (VStr t)) = true) as Htruthy by by destruct t.
    split.
    + intros Hs. unfold loadOrigin. rewrite Hget. cbn [bind]. rewrite Htruthy.
      cbn [typeof negb orb String.eqb Ascii.eqb Bool.eqb].
      rewrite Hgetk. cbn [bind].
      destruct (getProp originConfig "smtp") as [s|]; [| done].
      destruct (Hs s eq_refl) as [-> | Hty]; [done |].
      rewrite (proj2 (String.eqb_neq _ _) Hty). by rewrite orb_true_r.
    + intros s Hs Hsnull Hobj Hfields. unfold loadOrigin.
      rewrite Hget. cbn [bind]. rewrite Htruthy.
      cbn [typeof negb orb String.eqb Ascii.eqb Bool.eqb].
      rewrite Hgetk. cbn [bind]. rewrite Hs.
      assert (truthy (Some s) = true) as -> by (destruct s; done).
      rewrite Hobj. cbn [negb orb String.eqb Ascii.eqb Bool.eqb].
      assert (∀ k, get (Some s) k = Ok (getProp s k)) as Hgets
        by (intros k; by destruct s).
      rewrite !Hgets. cbn [bind].
      destruct (truthy (getProp s "host")), (truthy (getProp s "user")),
        (truthy (getProp s "pass")); done.
Qed.

Lemma loadOrigin_errors_witness :
  loadOrigin "https://a.example"
    (VObj [("toEmail", VStr "owner@a.example");
           ("smtp", VObj [("host", VStr "smtp.a.example"); ("user", VStr "u");
                          ("pass", VStr EmptyString)])])
  = Throw (MissingSmtpFields "https://a.example").
Proof.
  destruct (loadOrigin_errors "https://a.example"
              (VObj [("toEmail", VStr "owner@a.example");
                     ("smtp", VObj [("host", VStr "smtp.a.example"); ("user", VStr "u");
                                    ("pass", VStr EmptyString)])]))
    as (_ & _ & H).
  destruct (H "owner@a.example" eq_refl) as [_ H']; [discriminate |].
  apply (H' (VObj [("host", VStr "smtp.a.example"); ("user", VStr "u");
                   ("pass", VStr EmptyString)]));
    [reflexivity | discriminate | reflexivity | reflexivity].
Defined.

(** X27. The loop accepts exactly the origins whose toEmail is a non-empty
    string and whose smtp holds truthy host, user and pass; it stores name,
    host, user and pass as found (whatever their type), and port and secure
    as found or defaulted: name is never checked. *)
Theorem loadOrigin_accepts_iff (origin : string) (originConfig : value)
    (c : StoredOrigin) :
  loadOrigin origin originConfig = Ok c ↔
  ∃ t smtp,
    getProp originConfig "toEmail" = Some (VStr t) ∧ t ≠ EmptyString
    ∧ getProp originConfig "smtp" = Some smtp
    ∧ truthy (getProp smtp "host") = true
    ∧ truthy (getProp smtp "user") = true
    ∧ truthy (getProp smtp "pass") = true
    ∧ c = {| s_name := getProp originConfig "name";
             s_toEmail := Some (VStr t);
             s_smtp := {| s_host := getProp smtp "host";
                          s_port := nullish (getProp smtp "port") (VNum (num 587));
                          s_secure := nullish (getProp smtp "secure") (VBool false);
                          s_user := getProp smtp "user";
                          s_pass := getProp smtp "pass" |} |}.
Proof.
  split; [apply loadOrigin_Ok |].
  intros (t & smtp & Hto & Ht & Hsmtp & Hh & Hu & Hp & ->).
  destruct originConfig as [| | | | |props]; try discriminate Hto.
  destruct smtp as [| | | | |sprops]; try discriminate Hh.
  unfold loadOrigin. cbn [get bind]. rewrite Hto, Hsmtp.
  assert (truthy (Some (VStr t)) = true) as -> by by destruct t.
  cbn [typeof truthy negb orb String.eqb Ascii.eqb Bool.eqb get bind].
  by rewrite Hh, Hu, Hp.
Qed.

Lemma loadOrigin_accepts_iff_witness :
  let smtp := VObj [("host", VNum (num 25)); ("user", VBool true);
                    ("pass", VStr "secret"); ("port", VStr "submission")] in
  loadOrigin "https://a.example" (VObj [("toEmail", VStr "owner@a.example"); ("smtp", smtp)])
  = Ok {| s_name := None;
          s_toEmail := Some (VStr "owner@a.example");
          s_smtp := {| s_host := Some (VNum (num 25));
                       s_port := VStr "submission";
                       s_secure := VBool false;
                       s_user := Some (VBool true);
                       s_pass := Some (VStr "secret") |} |}.
Proof.
  intros smtp.
  apply (proj2 (loadOrigin_accepts_iff "https://a.example" _ _)).
  exists "owner@a.example", smtp. repeat split; try reflexivity. discriminate.
Defined.

(** X28. The listen port of a configuration that loads is never zero and
    never NaN: it is what Number makes of PORT when that is truthy, and 3000
    otherwise. *)
Theorem listen_port_default (env : string → option string)
    (readFileSync : string → option string) (JSON_parse : string → option value)
    (Number : option string → number) (cfg : LoadedConfig) :
  loadConfig env readFileSync JSON_parse Number = Ok cfg →
  truthy (Some (VNum (l_port cfg))) = true
  ∧ (truthy (Some (VNum (Number (env "PORT")))) = true →
     l_port cfg = Number (env "PORT"))
  ∧ (truthy (Some (VNum (Number (env "PORT")))) = false → l_port cfg = num 3000).
Proof.
  intros H.
  destruct (loadConfig_inv _ _ _ _ _ H) as (_ & _ & _ & _ & _ & _ & _ & _ & _ & ->).
  destruct (truthy (Some (VNum (Number (env "PORT"))))) eqn:Hport; by repeat split.
Qed.

Lemma listen_port_default_witness :
  let smtp := VObj [("host", VStr "smtp.known.example"); ("user", VStr "mailer");
                    ("pass", VStr "secret")] in
  let originConfig := VObj [("name", VStr "Example");
                            ("toEmail", VStr "owner@known.example"); ("smtp", smtp)] in
  let file := VObj [("https://known.example", originConfig)] in
  let env := λ key : string,
    if String.eqb key "CONFIG_FILE" then Some "/etc/email-api/origins.json"
    else if String.eqb key "PORT" then Some "0" else None in
  let stored :=
    {| s_name := Some (VStr "Example");
       s_toEmail := Some (VStr "owner@known.example");
       s_smtp := {| s_host := Some (VStr "smtp.known.example");
                    s_port := VNum (num 587);
                    s_secure := VBool false;
                    s_user := Some (VStr "mailer");
                    s_pass := Some (VStr "secret") |} |} in
  let cfg := {| l_port := num 3000;
                l_origins := {["https://known.example" := stored]} |} in
  truthy (Some (VNum (l_port cfg))) = true.
Proof.
  intros smtp originConfig file env stored cfg.
  apply (listen_port_default env (λ _, Some "the text of the file") (λ _, Some file)
           (λ _, S754_zero false) cfg).
  reflexivity.
Defined.

End ConfigMore.

(* ===================================================================== *)
(** * The single-site version                                             *)
(* ===================================================================== *)

Section SingleSite.
Import JS Text Legacy.

Lemma getEnv_optional (env : string → option string) (key : string) :
  getEnv env key false = Returned (env key).
Proof. reflexivity. Qed.

Lemma getRequired_cases (env : string → option string) (key : string) :
  (∃ v, getRequired env key = Returned v ∧ env key = Some v ∧ v ≠ EmptyString)
  ∨ (getRequired env key = MissingVariable key
     ∧ (env key = None ∨ env key = Some EmptyString)).
Proof.
  unfold getRequired, getEnv.
  destruct (env key) as [[|a v]|]; simpl; [right | left | right]; by eauto.
Qed.

Lemma split_nonempty sep (s : string) : split sep s ≠ [].
Proof.
  induction s as [|a s IH]; simpl; [done |].
  destruct (Ascii.eqb a sep); [done |]. by destruct (split sep s).
Qed.

Lemma split_no_sep sep (s : string) :
  Forall (λ piece, occurs sep piece = false) (split sep s).
Proof.
  induction s as [|a s IH]; simpl; [by constructor |].
  destruct (Ascii.eqb a sep) eqn:Ha; [by constructor |].
  destruct (split sep s) as [|first others]; [by constructor; [simpl; rewrite Ha |] |].
  apply Forall_cons in IH as [Hfirst Hothers].
  constructor; [simpl; by rewrite Ha, Hfirst | done].
Qed.

(** The first piece of [split] is what the handler takes of X-Forwarded-For. *)
Lemma split_head sep (s : string) : head (split sep s) = Some (splitFirst sep s).
Proof.
  induction s as [|a s IH]; simpl; [done |].
  destruct (Ascii.eqb a sep); [done |].
  destruct (split sep s) as [|first others]; [done |].
  simpl in *. by injection IH as ->.
Qed.

(** The case of the [n]-th required variable missing, [Hm] saying so: no
    configuration, and the error names that variable. *)
Tactic Notation "missing_variable" integer(n) hyp(Hm) :=
  split;
  [ split;
    [ by intros [? ?]
    | let H := fresh "H" in
      intros H; do n apply Forall_cons in H as [_ H];
      apply Forall_cons in H as [(? & ? & ?) _]; destruct Hm; congruence ]
  | split; [ intros ? [= <-]; split; [set_solver | done] | done ] ].



(** X30. In the single-site handler the API key is checked before anything is
    counted or sent: a POST to /api/send without the configured key is
    answered 401 with the rate-limit map as it was and no mail; mail is only
    ever sent for a request that carries the key, and with a 200 exactly one
    mail is sent, built from a body the guard accepted. *)
Theorem api_key_comes_first (cfg : Config) (w : World) (req : Request)
    (m : gmap string Index.RateLimitEntry) :
  method req = "POST" → pathname req = "/api/send" →
  let out := fetch cfg w req m in
  (XApiKey req ≠ Some (apiKey cfg) →
     Index.status (response out) = 401 ∧ rateLimitMap out = m ∧ sent out = [])
  ∧ (sent out ≠ [] → XApiKey req = Some (apiKey cfg))
  ∧ (Index.status (response out) = 200 →
     XApiKey req = Some (apiKey cfg)
     ∧ ∃ b, reqJson req = Some b ∧ validateBody b = true
            ∧ sent out = [asContactFormData b]).
Proof.
  intros Hm Hp out. subst out. unfold fetch. rewrite Hm, Hp. simpl.
  case_bool_decide as Hkey; simpl.
  - split; [done |]. split; [done |].
    destruct (Index.isRateLimited _ _ m) as [[] m']; simpl; [done |].
    destruct (reqJson req) as [b|]; simpl; [| done].
    destruct (validateBody b) eqn:Hvalid; simpl; [| done].
    destruct (delivers w _); simpl; [| done].
    intros _. split; [done |]. by exists b.
  - split; [done |]. split; done.
Qed.

Lemma api_key_comes_first_witness :
  let cfg := {| listenPort := num 3000; apiKey := "k3y";
                allowedOrigins := ["https://a.example"];
                toEmail := "owner@a.example";
                smtp := {| host := "smtp.a.example"; port := num 587; secure := false;
                           user := "mailer"; pass := "secret" |} |} in
  let w := {| now := 1000; delivers := λ _, true |} in
  let req := {| method := "POST"; pathname := "/api/send";
                Origin := Some "https://a.example"; XApiKey := Some "guess";
                XForwardedFor := Some "203.0.113.7"; requestIP := None;
                reqJson := Some (VObj [("email", VStr "a@b.com"); ("name", VStr "X");
                                       ("subject", VStr "Hello"); ("message", VStr "hi")]) |} in
  Index.status (response (fetch cfg w req ∅)) = 401
  ∧ rateLimitMap (fetch cfg w req ∅) = ∅.
Proof.
  intros cfg w req.
  destruct (api_key_comes_first cfg w req ∅) as [H _]; [reflexivity | reflexivity |].
  destruct H as (Hst & Hmap & _); [discriminate |].
  split; [exact Hst | exact Hmap].
Defined.

End SingleSite.
